(** * Singly-linked list of go-data-structures: model and verification

    The development embeds [linkedlist/singly/node.go] (the [node] and
    [List] structs and every method of [*List[T]]) and
    [errors/errors.go] (the three sentinel errors).

    Pointers [*node[T]] are modelled as optional locations into a store
    of nodes ([None] is Go's [nil]); methods are computations in a small
    state-and-panic monad over that store and the three fields of the
    [List] struct.  Go's [int] is a 64-bit two's complement integer:
    it is modelled as [Z] with the wrap-around of [+] and [-] written
    out by [wrap].  A loop that runs a known number of times is a
    structural recursion on that number; the three loops that run until
    a pointer is nil take a bound on their steps, and the theorems give
    them more steps than the list has nodes. *)

From stdpp Require Import base numbers option list gmap fin_maps fin_sets.

Local Open Scope Z_scope.

(** ** errors/errors.go *)

Inductive error : Set :=
| ErrIndexOutOfBounds
| ErrEmptyList
| ErrElementNotFound.

Global Instance error_eq_dec : EqDecision error.
Proof. solve_decision. Defined.

(** ** Go's [int] on a 64-bit platform *)

Definition int_min : Z := - 2 ^ 63.
Definition int_max : Z := 2 ^ 63 - 1.

(** Result of an [int] addition or subtraction whose exact value is [z]. *)
Definition wrap (z : Z) : Z := (z + 2 ^ 63) `mod` 2 ^ 64 - 2 ^ 63.

(** ** Outcomes of a method call

    [Ok a] is a normal return, [Panic] a run-time panic (nil pointer
    dereference, index out of range, negative [make] length), and
    [OutOfFuel] marks a loop cut by the step bound of the model. *)

Inductive res (A : Type) : Type :=
| Ok (a : A)
| Panic
| OutOfFuel.
Global Arguments Ok {A} a.
Global Arguments Panic {A}.
Global Arguments OutOfFuel {A}.

(** Locations of heap-allocated nodes. *)
Abbreviation loc := positive.

(** ** The structs *)

(** [type node[T comparable] struct { value T; next *node[T] }] *)
Record node (T : Type) : Type := Node { value : T; next : option loc }.
Global Arguments Node {T} value next.
Global Arguments value {T} n.
Global Arguments next {T} n.

(** [type List[T comparable] struct { first, last *node[T]; size int }],
    together with the store of nodes its pointers refer to. *)
Record List (T : Type) : Type := mkList {
  nodes : gmap loc (node T);
  list_first : option loc;
  list_last : option loc;
  list_size : Z
}.
Global Arguments mkList {T} nodes list_first list_last list_size.
Global Arguments nodes {T} l.
Global Arguments list_first {T} l.
Global Arguments list_last {T} l.
Global Arguments list_size {T} l.

(** ** The monad of methods *)

Definition M (T A : Type) : Type := List T → res (A * List T).

Definition ret {T A} (a : A) : M T A := λ l, Ok (a, l).

Definition bind {T A B} (c : M T A) (k : A → M T B) : M T B :=
  λ l, match c l with
       | Ok (a, l') => k a l'
       | Panic => Panic
       | OutOfFuel => OutOfFuel
       end.

Declare Scope M_scope.
Delimit Scope M_scope with M.
Bind Scope M_scope with M.
Notation "x ← y ; z" := (bind y (λ x, z))
  (at level 20, y at level 100, z at level 200, only parsing) : M_scope.
Notation "' x ← y ; z" := (bind y (λ x, z))
  (at level 20, x pattern, y at level 100, z at level 200, only parsing)
  : M_scope.
Notation "x ;; z" := (bind x (λ _, z))
  (at level 100, z at level 200, only parsing, right associativity) : M_scope.
Local Open Scope M_scope.

Section singly.

(** [T comparable]: [==] on [T] is a decidable equality (element types
    on which [==] is not reflexive, such as floats with NaN, are outside
    the model); [Countable] lets [T] be the key type of the Go map used
    by [Contains]. *)
Context {T : Type} `{Countable T}.

(** The zero value of [T] ([var t T]). *)
Variable zero : T.

Definition panic {A} : M T A := λ _, Panic.
Definition out_of_fuel {A} : M T A := λ _, OutOfFuel.

(** Reading a field of the receiver. *)
Definition gets {A} (f : List T → A) : M T A := λ l, Ok (f l, l).

(** Assigning a field of the receiver. *)
Definition set_first (p : option loc) : M T unit :=
  λ l, Ok (tt, mkList (nodes l) p (list_last l) (list_size l)).
Definition set_last (p : option loc) : M T unit :=
  λ l, Ok (tt, mkList (nodes l) (list_first l) p (list_size l)).
Definition set_size (z : Z) : M T unit :=
  λ l, Ok (tt, mkList (nodes l) (list_first l) (list_last l) z).

(** [&node[T]{value: v, next: nx}]: a node at a location not in use. *)
Definition alloc (v : T) (nx : option loc) : M T (option loc) :=
  λ l, let a := fresh (dom (nodes l)) in
       Ok (Some a, mkList (<[a := Node v nx]> (nodes l))
                          (list_first l) (list_last l) (list_size l)).

(** Dereferencing [p]; a nil pointer panics. *)
Definition load (p : option loc) : M T (node T) :=
  λ l, match p with
       | None => Panic
       | Some a => match nodes l !! a with
                   | Some nd => Ok (nd, l)
                   | None => Panic
                   end
       end.

Definition store (p : option loc) (nd : node T) : M T unit :=
  λ l, match p with
       | None => Panic
       | Some a => Ok (tt, mkList (<[a := nd]> (nodes l))
                                  (list_first l) (list_last l) (list_size l))
       end.

(** [p.next = q] *)
Definition store_next (p q : option loc) : M T unit :=
  nd ← load p; store p (Node (value nd) q).

(** [p.value = v] *)
Definition store_value (p : option loc) (v : T) : M T unit :=
  nd ← load p; store p (Node v (next nd)).

(** ** The methods of [*List[T]] *)

(** [Size]: [return list.size]. *)
Definition Size : M T Z := gets list_size.

(** [IsEmpty]: [return list.size == 0]. *)
Definition IsEmpty : M T bool :=
  sz ← gets list_size; ret (bool_decide (sz = 0)).

(** [inBounds]: [return index >= 0 && index < list.size]. *)
Definition inBounds (index : Z) : M T bool :=
  sz ← gets list_size;
  ret (bool_decide (0 ≤ index) && bool_decide (index < sz)).

(** [Add]: [for _, value := range values { ... }]. *)
Fixpoint Add (values : list T) : M T unit :=
  match values with
  | [] => ret tt
  | v :: values =>
      elem ← alloc v None;
      sz ← gets list_size;
      (if bool_decide (sz = 0)
       then (set_first elem;; set_last elem)
       else (lst ← gets list_last; store_next lst elem;; set_last elem));;
      sz ← gets list_size;
      set_size (wrap (sz + 1));;
      Add values
  end.

(** [Append] is an alias for [Add]. *)
Definition Append (values : list T) : M T unit := Add values.

(** [for i := len(values) - 1; i >= 0; i -= 1 { ... }]: the argument
    [n] is [i + 1], so the loop ends when it reaches [0]. *)
Fixpoint Prepend_from (n : nat) (values : list T) : M T unit :=
  match n with
  | O => ret tt
  | S i =>
      match values !! i with
      | None => panic
      | Some v =>
          first ← gets list_first;
          elem ← alloc v first;
          set_first elem;;
          sz ← gets list_size;
          (if bool_decide (sz = 0) then set_last elem else ret tt);;
          sz ← gets list_size;
          set_size (wrap (sz + 1));;
          Prepend_from i values
      end
  end.

(** [Prepend]: the values are put in front one by one, last argument
    first. *)
Definition Prepend (values : list T) : M T unit :=
  Prepend_from (length values) values.

(** [New]: a fresh empty list, to which the values, if any, are added. *)
Definition New (values : list T) : res (unit * List T) :=
  (if bool_decide (0 < Z.of_nat (length values))
   then Add values else ret tt) (mkList ∅ None None 0).

(** [First]: the value of the head node, or [ErrEmptyList]. *)
Definition First : M T (T * option error) :=
  e ← IsEmpty;
  if e then ret (zero, Some ErrEmptyList)
  else first ← gets list_first; nd ← load first; ret (value nd, None).

(** [Last]: the value of the tail node, or [ErrEmptyList]. *)
Definition Last : M T (T * option error) :=
  e ← IsEmpty;
  if e then ret (zero, Some ErrEmptyList)
  else lst ← gets list_last; nd ← load lst; ret (value nd, None).

(** [for i := 0; i != index; i, node = i+1, node.next {}], entered only
    with [0 <= index]: the body runs [index] times; [n] counts the
    iterations left. *)
Fixpoint walk (n : nat) (node : option loc) : M T (option loc) :=
  match n with
  | O => ret node
  | S n => nd ← load node; walk n (next nd)
  end.

(** [Get]: the value at [index], or [ErrIndexOutOfBounds]. *)
Definition Get (index : Z) : M T (T * option error) :=
  b ← inBounds index;
  if negb b then ret (zero, Some ErrIndexOutOfBounds)
  else
    first ← gets list_first;
    node ← walk (Z.to_nat index) first;
    nd ← load node;
    ret (value nd, None).

(** [for i, node := 0, list.first; node != nil; i, node = i+1, node.next
    { values[i] = node.value }]: [k] is [len(values) - i], the number of
    slots left; writing with none left is an index-out-of-range panic. *)
Fixpoint Values_loop (k i : nat) (node : option loc) (values : list T)
  : M T (list T) :=
  match node with
  | None => ret values
  | Some _ =>
      match k with
      | O => panic
      | S k =>
          nd ← load node;
          Values_loop k (S i) (next nd) (<[i := value nd]> values)
      end
  end.

(** [Values]: [make([]T, list.size)] (a negative length panics), filled
    from the chain. *)
Definition Values : M T (list T) :=
  sz ← gets list_size;
  if bool_decide (sz < 0) then panic
  else
    first ← gets list_first;
    Values_loop (Z.to_nat sz) 0 first (replicate (Z.to_nat sz) zero).

(** The loop of [IndexOf]:
    [for node := list.first; node != nil; node = node.next { ... }]. *)
Fixpoint IndexOf_loop (fuel : nat) (node : option loc) (index : Z) (v : T)
  : M T (Z * option error) :=
  match fuel with
  | O => out_of_fuel
  | S fuel =>
      match node with
      | None => ret (-1, Some ErrElementNotFound)
      | Some _ =>
          nd ← load node;
          if bool_decide (value nd = v) then ret (index, None)
          else IndexOf_loop fuel (next nd) (wrap (index + 1)) v
      end
  end.

(** [IndexOf]: [ErrEmptyList] on an empty list, else the loop. *)
Definition IndexOf (fuel : nat) (v : T) : M T (Z * option error) :=
  e ← IsEmpty;
  if e then ret (-1, Some ErrEmptyList)
  else first ← gets list_first; IndexOf_loop fuel first 0 v.

(** [Clear]: [list.size = 0; list.first = nil; list.last = nil]. *)
Definition Clear : M T unit :=
  set_size 0;; set_first None;; set_last None.

(** The loop of [Remove] and [Insert]:
    [for i := 0; i != index; i, node = i+1, node.next { prev = node }]. *)
Fixpoint walk_prev (n : nat) (prev node : option loc)
  : M T (option loc * option loc) :=
  match n with
  | O => ret (prev, node)
  | S n => nd ← load node; walk_prev n node (next nd)
  end.

(** [Remove]: emptiness is checked first, then the bounds; then the
    node is found and unlinked. *)
Definition Remove (index : Z) : M T (option error) :=
  e ← IsEmpty;
  if e then ret (Some ErrEmptyList)
  else
    b ← inBounds index;
    if negb b then ret (Some ErrIndexOutOfBounds)
    else
      first ← gets list_first;
      '(prev, node) ← walk_prev (Z.to_nat index) None first;
      first ← gets list_first;
      (if bool_decide (node = first)
       then (nd ← load node; set_first (next nd)) else ret tt);;
      lst ← gets list_last;
      (if bool_decide (node = lst) then set_last prev else ret tt);;
      (if bool_decide (prev ≠ None)
       then (nd ← load node; store_next prev (next nd)) else ret tt);;
      sz ← gets list_size;
      set_size (wrap (sz - 1));;
      ret None.

(** [valuesToFind[value] = true] for each argument. *)
Definition values_to_find (values : list T) : gmap T bool :=
  foldl (λ m v, <[v := true]> m) ∅ values.

Fixpoint Contains_loop (fuel : nat) (node : option loc)
    (valuesToFind : gmap T bool) : M T bool :=
  match fuel with
  | O => out_of_fuel
  | S fuel =>
      match node with
      | None => ret false
      | Some _ =>
          nd ← load node;
          if default false (valuesToFind !! value nd) then
            let valuesToFind := delete (value nd) valuesToFind in
            if bool_decide (size valuesToFind = 0%nat) then ret true
            else Contains_loop fuel (next nd) valuesToFind
          else Contains_loop fuel (next nd) valuesToFind
      end
  end.

(** [Contains]: the guards on [len(values)] and [list.size], then the
    map of values to find and the loop. *)
Definition Contains (fuel : nat) (values : list T) : M T bool :=
  if bool_decide (length values = 0%nat) then ret true
  else
    sz ← gets list_size;
    if bool_decide (sz = 0) || bool_decide (sz < Z.of_nat (length values))
    then ret false
    else
      first ← gets list_first;
      Contains_loop fuel first (values_to_find values).

(** [for n := 0; current != nil && (node1 == nil || node2 == nil);
    n, current = n+1, current.next { ... }] *)
Fixpoint Swap_loop (fuel : nat) (i j n : Z) (current node1 node2 : option loc)
  : M T (option loc * option loc) :=
  match fuel with
  | O => out_of_fuel
  | S fuel =>
      if bool_decide (current ≠ None)
         && (bool_decide (node1 = None) || bool_decide (node2 = None))
      then
        let node1 := if bool_decide (i = n) then current else node1 in
        let node2 := if bool_decide (j = n) then current else node2 in
        nd ← load current;
        Swap_loop fuel i j (wrap (n + 1)) (next nd) node1 node2
      else ret (node1, node2)
  end.

(** [Swap]: both bounds are checked before [i == j]; the values of the
    two nodes found by the loop are exchanged. *)
Definition Swap (fuel : nat) (i j : Z) : M T (option error) :=
  bi ← inBounds i;
  bj ← inBounds j;
  if negb bi || negb bj then ret (Some ErrIndexOutOfBounds)
  else if bool_decide (i = j) then ret None
  else
    first ← gets list_first;
    '(node1, node2) ← Swap_loop fuel i j 0 first None None;
    n1 ← load node1;
    n2 ← load node2;
    store_value node1 (value n2);;
    store_value node2 (value n1);;
    ret None.

(** [for _, v := range values { newNode := ...; prev.next = newNode;
    prev = newNode }], returning the final [prev]. *)
Fixpoint Insert_loop (values : list T) (prev : option loc) : M T (option loc) :=
  match values with
  | [] => ret prev
  | v :: values =>
      newNode ← alloc v None;
      store_next prev newNode;;
      Insert_loop values newNode
  end.

(** [Insert]: an index out of bounds appends when it is the size and
    fails otherwise; index [0] prepends; else the values are spliced in
    after the node before [index]. *)
Definition Insert (index : Z) (values : list T) : M T (option error) :=
  b ← inBounds index;
  if negb b then
    sz ← gets list_size;
    if bool_decide (index = sz) then (Append values;; ret None)
    else ret (Some ErrIndexOutOfBounds)
  else if bool_decide (index = 0) then (Prepend values;; ret None)
  else
    sz ← gets list_size;
    set_size (wrap (sz + Z.of_nat (length values)));;
    first ← gets list_first;
    '(prev, current) ← walk_prev (Z.to_nat index) None first;
    pn ← load prev;
    let oldNext := next pn in
    prev ← Insert_loop values prev;
    store_next prev oldNext;;
    ret None.

(** [Set] ([Set] is a keyword here, hence the underscore): the value of
    the node at [index] is overwritten. *)
Definition Set_ (index : Z) (v : T) : M T (option error) :=
  b ← inBounds index;
  if negb b then ret (Some ErrIndexOutOfBounds)
  else
    first ← gets list_first;
    node ← walk (Z.to_nat index) first;
    store_value node v;;
    ret None.

(** The pointer to the node at position [n] of a chain (nil past its end). *)
Definition ptr (xs : list (loc * T)) (n : nat) : option loc :=
  fst <$> xs !! n.

(** ** The shape of the store: list segments

    [lseg h p xs q]: following [next] links in [h] from [p] visits
    exactly the nodes [xs] (location and value, in order) and then
    arrives at [q]. *)

Fixpoint lseg (h : gmap loc (node T)) (p : option loc) (xs : list (loc * T))
    (q : option loc) : Prop :=
  match xs with
  | [] => p = q
  | (a, v) :: xs => p = Some a ∧ ∃ r, h !! a = Some (Node v r) ∧ lseg h r xs q
  end.

(** [follow h n p]: the [n] nodes met from [p], provided the walk ends on
    nil after exactly [n] of them. *)
Fixpoint follow (h : gmap loc (node T)) (n : nat) (p : option loc)
  : option (list (loc * T)) :=
  match n, p with
  | O, None => Some []
  | O, Some _ => None
  | S _, None => None
  | S n, Some a =>
      match h !! a with
      | None => None
      | Some nd =>
          match follow h n (next nd) with
          | None => None
          | Some xs => Some ((a, value nd) :: xs)
          end
      end
  end.

(** The structural invariant of the data model, as a check that runs:
    [size] is a non-negative [int]; the chain from [first] has exactly
    [size] nodes and then ends on nil; [last] is the last node of that
    chain (nil when there is none). *)
Definition well_formed (l : List T) : bool :=
  bool_decide (0 ≤ list_size l) && bool_decide (list_size l ≤ int_max) &&
  match follow (nodes l) (Z.to_nat (list_size l)) (list_first l) with
  | None => false
  | Some xs => bool_decide (list_last l = last (xs.*1))
  end.

Definition Inv (l : List T) : Prop := well_formed l = true.

(** [Repr l xs]: the list [l] is the chain of nodes [xs]. *)
Definition Repr (l : List T) (xs : list (loc * T)) : Prop :=
  lseg (nodes l) (list_first l) xs None ∧
  list_last l = last (xs.*1) ∧
  list_size l = Z.of_nat (length xs).

(** [steps h n p]: the pointer reached from [p] after [n] links; stepping
    from nil is not possible. *)
Fixpoint steps (h : gmap loc (node T)) (n : nat) (p : option loc)
  : option (option loc) :=
  match n with
  | O => Some p
  | S n =>
      match p with
      | None => None
      | Some a =>
          match h !! a with
          | None => None
          | Some nd => steps h n (next nd)
          end
      end
  end.

(** The invariants of the data model in the words of the specification. *)
Definition structural (l : List T) : Prop :=
  (list_size l = 0 ↔ list_first l = None) ∧
  (list_first l = None ↔ list_last l = None) ∧
  steps (nodes l) (Z.to_nat (list_size l)) (list_first l) = Some None ∧
  (0 < list_size l →
   steps (nodes l) (Z.to_nat (list_size l - 1)) (list_first l)
     = Some (list_last l)) ∧
  (∀ a, list_last l = Some a → next <$> nodes l !! a = Some None).

(** ** Calls

    One call of a method of the list, what it returns, and its run on a
    list.  [fuel] bounds the three loops that run until a pointer is nil
    ([IndexOf], [Contains], [Swap]). *)

Inductive call : Type :=
| CallSize
| CallIsEmpty
| CallAdd (values : list T)
| CallAppend (values : list T)
| CallPrepend (values : list T)
| CallFirst
| CallLast
| CallGet (index : Z)
| CallValues
| CallIndexOf (v : T)
| CallClear
| CallRemove (index : Z)
| CallContains (values : list T)
| CallSwap (i j : Z)
| CallInsert (index : Z) (values : list T)
| CallSet (index : Z) (v : T).

Inductive reply : Type :=
| RUnit
| RInt (z : Z)
| RBool (b : bool)
| RValues (vs : list T)
| RValue (v : T) (e : option error)
| RIndex (z : Z) (e : option error)
| RError (e : option error).

Definition exec (fuel : nat) (c : call) : M T reply :=
  match c with
  | CallSize => z ← Size; ret (RInt z)
  | CallIsEmpty => b ← IsEmpty; ret (RBool b)
  | CallAdd values => Add values;; ret RUnit
  | CallAppend values => Append values;; ret RUnit
  | CallPrepend values => Prepend values;; ret RUnit
  | CallFirst => '(v, e) ← First; ret (RValue v e)
  | CallLast => '(v, e) ← Last; ret (RValue v e)
  | CallGet index => '(v, e) ← Get index; ret (RValue v e)
  | CallValues => vs ← Values; ret (RValues vs)
  | CallIndexOf v => '(z, e) ← IndexOf fuel v; ret (RIndex z e)
  | CallClear => Clear;; ret RUnit
  | CallRemove index => e ← Remove index; ret (RError e)
  | CallContains values => b ← Contains fuel values; ret (RBool b)
  | CallSwap i j => e ← Swap fuel i j; ret (RError e)
  | CallInsert index values => e ← Insert index values; ret (RError e)
  | CallSet index v => e ← Set_ index v; ret (RError e)
  end.

(** The error a call returned ([None] is Go's nil error, also for the
    methods that return no error). *)
Definition reply_error (r : reply) : option error :=
  match r with
  | RValue _ e | RIndex _ e | RError e => e
  | _ => None
  end.

(** The query methods. *)
Definition is_query (c : call) : bool :=
  match c with
  | CallSize | CallIsEmpty | CallFirst | CallLast | CallGet _ | CallValues
  | CallIndexOf _ | CallContains _ => true
  | _ => false
  end.

(** The number of nodes a call may allocate. *)
Definition grows (c : call) : Z :=
  match c with
  | CallAdd values | CallAppend values | CallPrepend values
  | CallInsert _ values => Z.of_nat (length values)
  | _ => 0
  end.

Fixpoint run (fuel : nat) (cs : list call) : M T (list reply) :=
  match cs with
  | [] => ret []
  | c :: cs => r ← exec fuel c; rs ← run fuel cs; ret (r :: rs)
  end.

Fixpoint total_growth (cs : list call) : Z :=
  match cs with
  | [] => 0
  | c :: cs => grows c + total_growth cs
  end.

(** [index] is in [[0, size)]. *)
Definition in_range (l : List T) (index : Z) : Prop :=
  0 ≤ index < list_size l.

End singly.

Global Arguments call T : clear implicits.
Global Arguments reply T : clear implicits.

(** ** Sample lists of [int] *)

(** The list [[1, 2, 3]] as [New(1, 2, 3)] builds it. *)
Definition list_123 : List Z :=
  mkList (<[3%positive := Node 3 None]>
            (<[2%positive := Node 2 (Some 3%positive)]>
               (<[1%positive := Node 1 (Some 2%positive)]> ∅)))
         (Some 1%positive) (Some 3%positive) 3.

(** The list [[1]]. *)
Definition list_1 : List Z :=
  mkList (<[1%positive := Node 1 None]> ∅) (Some 1%positive) (Some 1%positive) 1.

(** The empty list, [New()]. *)
Definition list_empty : List Z := mkList ∅ None None 0.

(** ** The test helper [sliceEqual]

    [for i := range a { if a[i] != b[i] { return false } }]: the
    recursion is on the elements of [a] still to visit, [i] being the
    index of the first of them; [b[i]] past the end of [b] panics. *)
Fixpoint sliceEqual_loop (a : list Z) (i : nat) (b : list Z) : res bool :=
  match a with
  | [] => Ok true
  | x :: a =>
      match b !! i with
      | None => Panic
      | Some y =>
          if bool_decide (x ≠ y) then Ok false
          else sliceEqual_loop a (S i) b
      end
  end.

(** [sliceEqual]: slices of different lengths are unequal; else the
    elements are compared in turn. *)
Definition sliceEqual (a b : list Z) : res bool :=
  if bool_decide (length a ≠ length b) then Ok false
  else sliceEqual_loop a 0 b.

Section singly_correct.

Context {T : Type} `{Countable T}.
Variable zero : T.

Local Open Scope M_scope.

Implicit Types (l : List T) (h : gmap loc (node T)) (nd : node T).
Implicit Types (xs ys pre post : list (loc * T)) (values old : list T).

(** ** Arithmetic of [int] *)

Lemma wrap_id z : int_min ≤ z ≤ int_max → wrap z = z.
Proof.
  unfold wrap, int_min, int_max. intros Hz.
  rewrite Z.mod_small; lia.
Qed.

(** ** Evaluation of the monad *)

Lemma bind_Ok {A B} (c : M T A) (k : A → M T B) l a l' :
  c l = Ok (a, l') → bind c k l = k a l'.
Proof. unfold bind. by intros ->. Qed.

Lemma bind_inv {A B} (c : M T A) (k : A → M T B) l b l'' :
  bind c k l = Ok (b, l'') →
  ∃ a l', c l = Ok (a, l') ∧ k a l' = Ok (b, l'').
Proof.
  unfold bind. destruct (c l) as [[a l']| |]; [|done..]. eauto.
Qed.

Lemma load_Ok a nd l :
  nodes l !! a = Some nd → load (Some a) l = Ok (nd, l).
Proof. unfold load. by intros ->. Qed.

Lemma load_inv p nd l l' :
  load p l = Ok (nd, l') → l' = l ∧ ∃ a, p = Some a ∧ nodes l !! a = Some nd.
Proof.
  unfold load. destruct p as [a|]; [|done].
  destruct (nodes l !! a) eqn:E; [|done]. intros [= -> ->]. eauto.
Qed.

(** ** Segments *)

Lemma lseg_app h xs ys p q :
  lseg h p (xs ++ ys) q ↔ ∃ r, lseg h p xs r ∧ lseg h r ys q.
Proof.
  revert p. induction xs as [|[a v] xs IH]; intros p; simpl.
  - split; [eauto|]. by intros (r & -> & ?).
  - split.
    + intros (-> & r & Ha & Hr). apply IH in Hr as (r' & ? & ?).
      exists r'. eauto 10.
    + intros (r' & (-> & r & Ha & Hr) & Hys). split; [done|].
      exists r. split; [done|]. apply IH. eauto.
Qed.

Lemma lseg_is_Some h p xs q a :
  lseg h p xs q → a ∈ xs.*1 → is_Some (h !! a).
Proof.
  revert p. induction xs as [|[b v] xs IH]; intros p; simpl.
  - intros _ Ha. by apply elem_of_nil in Ha.
  - intros (-> & r & Hb & Hr) [->|Ha]%elem_of_cons; eauto.
Qed.

Lemma lseg_insert h p xs q a nd :
  a ∉ xs.*1 → lseg h p xs q → lseg (<[a := nd]> h) p xs q.
Proof.
  revert p. induction xs as [|[b v] xs IH]; intros p; simpl; [done|].
  intros Ha (-> & r & Hb & Hr). apply not_elem_of_cons in Ha as [Hab Ha].
  split; [done|]. exists r. rewrite lookup_insert_ne; eauto.
Qed.

Lemma fresh_not_in h p xs q :
  lseg h p xs q → fresh (dom h) ∉ xs.*1.
Proof.
  intros Hseg Hin. eapply lseg_is_Some in Hin; [|done].
  apply elem_of_dom in Hin. by apply is_fresh in Hin.
Qed.

Lemma lseg_alloc h p xs q nd :
  lseg h p xs q → lseg (<[fresh (dom h) := nd]> h) p xs q.
Proof. intros Hseg. eapply lseg_insert; [by eapply fresh_not_in|done]. Qed.

Lemma lseg_func h p xs ys :
  lseg h p xs None → lseg h p ys None → xs = ys.
Proof.
  revert p ys. induction xs as [|[a v] xs IH]; intros p [|[b w] ys]; simpl.
  - done.
  - by intros -> [? _].
  - by intros [-> _] ?.
  - intros (-> & r & Ha & Hr) ([= <-] & r' & Hb & Hr').
    rewrite Ha in Hb. injection Hb as <- <-. f_equal. eauto.
Qed.

Lemma lseg_NoDup h p xs : lseg h p xs None → NoDup (xs.*1).
Proof.
  revert p. induction xs as [|[a v] xs IH]; intros p; simpl.
  - constructor.
  - intros (-> & r & Ha & Hr). constructor; [|by eapply IH].
    intros Hin. apply list_elem_of_fmap in Hin as ([a' w] & Heq & Hin).
    simpl in Heq. subst a'.
    apply list_elem_of_split in Hin as (ys & zs & ->).
    pose proof Hr as Hr'.
    apply lseg_app in Hr' as (r' & _ & (-> & r'' & Ha' & Hzs)).
    rewrite Ha in Ha'. injection Ha' as <- <-.
    pose proof (lseg_func _ _ _ _ Hr Hzs) as Heq.
    apply (f_equal length) in Heq. rewrite length_app in Heq.
    simpl in Heq. lia.
Qed.

Lemma ptr_ge xs n : (length xs ≤ n)%nat → ptr xs n = None.
Proof. intros Hn. unfold ptr. by rewrite lookup_ge_None_2. Qed.

Lemma ptr_lookup xs n a v : xs !! n = Some (a, v) → ptr xs n = Some a.
Proof. unfold ptr. by intros ->. Qed.

Lemma ptr_cons x xs n : ptr (x :: xs) (S n) = ptr xs n.
Proof. done. Qed.

Lemma lseg_head h p xs : lseg h p xs None → p = ptr xs 0.
Proof. destruct xs as [|[a v] xs]; simpl; [done|]. by intros [-> _]. Qed.

Lemma lseg_lookup h p xs n a v :
  lseg h p xs None → xs !! n = Some (a, v) →
  h !! a = Some (Node v (ptr xs (S n))).
Proof.
  revert p n. induction xs as [|[b w] xs IH]; intros p n; simpl; [done|].
  intros (-> & r & Hb & Hr) Hn. destruct n as [|n]; simpl in Hn.
  - injection Hn as -> ->. rewrite ptr_cons, <- (lseg_head _ _ _ Hr). done.
  - rewrite ptr_cons. eauto.
Qed.

Lemma lseg_split h p xs n a v :
  lseg h p xs None → xs !! n = Some (a, v) →
  lseg h p (take n xs) (Some a) ∧
  lseg h (ptr xs (S n)) (drop (S n) xs) None ∧
  (a ∉ (take n xs).*1) ∧ (a ∉ (drop (S n) xs).*1).
Proof.
  intros Hseg Hn. pose proof (lseg_NoDup _ _ _ Hseg) as Hnd.
  pose proof (lseg_lookup _ _ _ _ _ _ Hseg Hn) as Ha.
  rewrite <- (take_drop_middle _ _ _ Hn) in Hseg, Hnd.
  apply lseg_app in Hseg as (r & Hpre & (-> & r' & Ha' & Hpost)).
  rewrite Ha in Ha'. injection Ha' as <-.
  rewrite fmap_app, fmap_cons in Hnd. simpl in Hnd.
  apply NoDup_app in Hnd as (_ & Hdisj & Hnd').
  apply NoDup_cons in Hnd' as [Hpost' _].
  repeat split; try done.
  intros Hin. apply (Hdisj _ Hin). left.
Qed.

Lemma follow_lseg h n p xs :
  follow h n p = Some xs → lseg h p xs None ∧ length xs = n.
Proof.
  revert p xs. induction n as [|n IH]; intros [a|] xs; simpl; try done.
  - by intros [= <-].
  - destruct (h !! a) as [[v r]|] eqn:Ha; [|done]. simpl.
    destruct (follow h n r) as [ys|] eqn:Hf; [|done].
    intros [= <-]. apply IH in Hf as [Hseg <-]. simpl. eauto 10.
Qed.

Lemma lseg_follow h p xs :
  lseg h p xs None → follow h (length xs) p = Some xs.
Proof.
  revert p. induction xs as [|[a v] xs IH]; intros p; simpl.
  - by intros ->.
  - intros (-> & r & Ha & Hr). rewrite Ha. simpl. by rewrite (IH _ Hr).
Qed.

Lemma Inv_Repr l :
  Inv l ↔ list_size l ≤ int_max ∧ ∃ xs, Repr l xs.
Proof.
  unfold Inv, well_formed, Repr. split.
  - intros Hwf. apply andb_prop in Hwf as [Hwf Hlast].
    apply andb_prop in Hwf as [H0%bool_decide_eq_true Hmax%bool_decide_eq_true].
    destruct (follow _ _ _) as [xs|] eqn:Hf; [|done].
    apply bool_decide_eq_true in Hlast.
    apply follow_lseg in Hf as [Hseg Hlen].
    split; [done|]. exists xs. repeat split; [done..|lia].
  - intros (Hmax & xs & Hseg & Hlast & Hsz).
    rewrite Hsz, Nat2Z.id, (lseg_follow _ _ _ Hseg).
    rewrite !andb_true_iff, !bool_decide_eq_true. repeat split; try done; lia.
Qed.

(** The invariant gives the data model's invariants as the specification
    words them. *)

Lemma steps_ptr h p xs m n :
  lseg h p xs None → (m + n ≤ length xs)%nat →
  steps h n (ptr xs m) = Some (ptr xs (m + n)).
Proof.
  intros Hseg. revert m. induction n as [|n IH]; intros m Hmn; simpl.
  - by rewrite Nat.add_0_r.
  - destruct (xs !! m) as [[a v]|] eqn:Hm.
    + rewrite (ptr_lookup _ _ _ _ Hm), (lseg_lookup _ _ _ _ _ _ Hseg Hm).
      simpl. rewrite IH by lia. f_equal. f_equal. lia.
    + apply lookup_ge_None in Hm. lia.
Qed.

Lemma Repr_structural l xs : Repr l xs → structural l.
Proof.
  intros (Hseg & Hlast & Hsz). unfold structural.
  pose proof (lseg_head _ _ _ Hseg) as Hhd.
  assert (list_first l = None ↔ xs = []) as Hfirst.
  { rewrite Hhd. destruct xs as [|[??] ?]; by cbn. }
  assert (list_last l = None ↔ xs = []) as Hlast'.
  { rewrite Hlast, last_None. split; [apply fmap_nil_inv|by intros ->]. }
  assert (list_size l = 0 ↔ xs = []) as Hzero.
  { rewrite Hsz. destruct xs; simpl; split; (done || lia). }
  split; [by rewrite Hzero, Hfirst|]. split; [by rewrite Hfirst, Hlast'|].
  split; [|split].
  - rewrite Hhd, Hsz, Nat2Z.id.
    rewrite (steps_ptr _ _ _ 0 _ Hseg) by (simpl; lia).
    simpl. by rewrite ptr_ge.
  - intros Hpos. rewrite Hhd, (steps_ptr _ _ _ 0 _ Hseg) by (simpl; lia).
    simpl. f_equal. rewrite Hlast, last_lookup, length_fmap.
    unfold ptr. rewrite list_lookup_fmap. f_equal. f_equal. lia.
  - intros a Ha. rewrite Hlast, last_lookup, list_lookup_fmap in Ha.
    rewrite length_fmap in Ha.
    destruct (xs !! pred (length xs)) as [[b v]|] eqn:Hb; [|done].
    simpl in Ha. injection Ha as ->.
    rewrite (lseg_lookup _ _ _ _ _ _ Hseg Hb). simpl. f_equal.
    apply ptr_ge. destruct xs; simpl in *; [done|lia].
Qed.

(** ** The queries on a well-formed list *)

Lemma walk_ptr l p xs m n :
  lseg (nodes l) p xs None → (m + n ≤ length xs)%nat →
  walk n (ptr xs m) l = Ok (ptr xs (m + n), l).
Proof.
  intros Hseg. revert m. induction n as [|n IH]; intros m Hmn; simpl.
  - by rewrite Nat.add_0_r.
  - destruct (xs !! m) as [[a v]|] eqn:Hm.
    + rewrite (ptr_lookup _ _ _ _ Hm).
      erewrite bind_Ok; [|apply load_Ok; by eapply lseg_lookup].
      simpl. rewrite IH by lia. do 3 f_equal. lia.
    + apply lookup_ge_None in Hm. lia.
Qed.

Lemma walk_prev_ptr l p xs prev m n :
  lseg (nodes l) p xs None → (m + n ≤ length xs)%nat →
  walk_prev n prev (ptr xs m) l
  = Ok ((match n with O => prev | S n' => ptr xs (m + n') end,
         ptr xs (m + n)), l).
Proof.
  intros Hseg. revert prev m. induction n as [|n IH]; intros prev m Hmn; simpl.
  - by rewrite Nat.add_0_r.
  - destruct (xs !! m) as [[a v]|] eqn:Hm.
    + rewrite (ptr_lookup _ _ _ _ Hm).
      erewrite bind_Ok; [|apply load_Ok; by eapply lseg_lookup].
      simpl. rewrite IH by lia. rewrite <- (ptr_lookup _ _ _ _ Hm).
      destruct n as [|n]; simpl; do 3 f_equal; f_equal; lia.
    + apply lookup_ge_None in Hm. lia.
Qed.

Lemma Values_loop_spec l p xs :
  lseg (nodes l) p xs None →
  ∀ k i vals, (i + k = length xs)%nat → length vals = length xs →
  Values_loop k i (ptr xs i) vals l = Ok (take i vals ++ drop i (xs.*2), l).
Proof.
  intros Hseg. induction k as [|k IH]; intros i vals Hik Hlen.
  - rewrite ptr_ge by lia. simpl. unfold ret.
    rewrite take_ge, drop_ge, app_nil_r by (rewrite ?length_fmap; lia). done.
  - destruct (xs !! i) as [[a v]|] eqn:Hi.
    2:{ apply lookup_ge_None in Hi. lia. }
    rewrite (ptr_lookup _ _ _ _ Hi). simpl.
    erewrite bind_Ok; [|apply load_Ok; by eapply lseg_lookup].
    simpl. rewrite IH by (rewrite ?length_insert; lia).
    do 2 f_equal.
    rewrite (take_S_r _ _ v) by (apply list_lookup_insert_eq; lia).
    rewrite take_insert_ge by lia.
    rewrite (drop_S (xs.*2) v i) by (by rewrite list_lookup_fmap, Hi).
    by rewrite <- app_assoc.
Qed.

Lemma Values_Repr l xs : Repr l xs → Values zero l = Ok (xs.*2, l).
Proof.
  intros (Hseg & Hlast & Hsz). unfold Values, bind, gets.
  rewrite bool_decide_false by lia.
  rewrite (lseg_head _ _ _ Hseg), Hsz, Nat2Z.id.
  rewrite (Values_loop_spec _ _ _ Hseg) by (rewrite ?length_replicate; lia).
  by rewrite drop_0.
Qed.

Lemma IsEmpty_eq l : IsEmpty l = Ok (bool_decide (list_size l = 0), l).
Proof. done. Qed.

Lemma inBounds_eq index l :
  inBounds index l
  = Ok (bool_decide (0 ≤ index) && bool_decide (index < list_size l), l).
Proof. done. Qed.

Lemma First_Repr l a v xs :
  Repr l ((a, v) :: xs) → First zero l = Ok ((v, None), l).
Proof.
  intros (Hseg & Hlast & Hsz). unfold First.
  rewrite (bind_Ok _ _ _ _ _ (IsEmpty_eq l)).
  rewrite bool_decide_false by (simpl in Hsz; lia).
  unfold bind, gets. destruct Hseg as (-> & r & Ha & _).
  by rewrite (load_Ok _ _ _ Ha).
Qed.

Lemma Last_Repr l a v xs :
  Repr l (xs ++ [(a, v)]) → Last zero l = Ok ((v, None), l).
Proof.
  intros (Hseg & Hlast & Hsz). unfold Last.
  rewrite (bind_Ok _ _ _ _ _ (IsEmpty_eq l)).
  rewrite bool_decide_false by (rewrite length_app in Hsz; simpl in Hsz; lia).
  unfold bind, gets. rewrite Hlast, fmap_app. simpl. rewrite last_snoc.
  apply lseg_app in Hseg as (r & _ & (-> & r' & Ha & ->)).
  by rewrite (load_Ok _ _ _ Ha).
Qed.

Lemma Get_Repr l xs n a v :
  Repr l xs → xs !! n = Some (a, v) → Get zero (Z.of_nat n) l = Ok ((v, None), l).
Proof.
  intros (Hseg & Hlast & Hsz) Hn. unfold Get.
  rewrite (bind_Ok _ _ _ _ _ (inBounds_eq _ l)).
  apply lookup_lt_Some in Hn as Hlt.
  rewrite !bool_decide_true by lia. simpl.
  unfold bind at 1. unfold gets. rewrite Nat2Z.id.
  rewrite (lseg_head _ _ _ Hseg).
  rewrite (bind_Ok _ _ _ _ _ (walk_ptr _ _ _ 0 n Hseg ltac:(simpl; lia))).
  simpl. rewrite (ptr_lookup _ _ _ _ Hn).
  erewrite bind_Ok; [|apply load_Ok; by eapply lseg_lookup]. done.
Qed.

Lemma IndexOf_loop_spec l v :
  ∀ xs p fuel index,
  lseg (nodes l) p xs None → (length xs < fuel)%nat →
  0 ≤ index → index + Z.of_nat (length xs) ≤ int_max →
  IndexOf_loop fuel p index v l
  = Ok (match list_find (λ x, x = v) (xs.*2) with
        | Some (j, _) => (index + Z.of_nat j, None)
        | None => (-1, Some ErrElementNotFound)
        end, l).
Proof.
  induction xs as [|[a w] xs IH]; intros p [|fuel] index Hseg Hfuel H0 Hmax;
    simpl in *; try lia.
  - by subst p.
  - destruct Hseg as (-> & r & Ha & Hr).
    rewrite (bind_Ok _ _ _ _ _ (load_Ok _ _ _ Ha)). simpl.
    case_bool_decide as Hw; case_decide as Hw'; try done.
    + unfold ret. do 3 f_equal. lia.
    + rewrite wrap_id by (unfold int_min; lia).
      rewrite (IH r) by (done || lia).
      destruct (list_find _ _) as [[j y]|]; simpl; [|done].
      do 3 f_equal. lia.
Qed.

Lemma values_to_find_spec values :
  dom (values_to_find values) = list_to_set values ∧
  ∀ k b, values_to_find values !! k = Some b → b = true.
Proof.
  unfold values_to_find.
  cut (∀ m : gmap T bool,
    dom (foldl (λ m v, <[v := true]> m) m values)
      = list_to_set values ∪ dom m ∧
    ((∀ k b, m !! k = Some b → b = true) →
     ∀ k b, foldl (λ m v, <[v := true]> m) m values !! k = Some b → b = true)).
  { intros Hcut. destruct (Hcut ∅) as [Hd Hv]. split.
    - by rewrite Hd, dom_empty_L, union_empty_r_L.
    - apply Hv. intros k b. by rewrite lookup_empty. }
  induction values as [|v values IH]; intros m; simpl.
  - split; [by rewrite union_empty_l_L|done].
  - destruct (IH (<[v := true]> m)) as [Hd Hv]. split.
    + rewrite Hd, dom_insert_L, union_assoc_L.
      by rewrite (union_comm_L (list_to_set values) {[v]}).
    + intros Hm. apply Hv. intros k b.
      rewrite lookup_insert. case_decide; [congruence|apply Hm].
Qed.

Lemma Contains_loop_spec l :
  ∀ xs p fuel (m : gmap T bool),
  lseg (nodes l) p xs None → (length xs < fuel)%nat →
  m ≠ ∅ → (∀ k b, m !! k = Some b → b = true) →
  ∃ b, Contains_loop fuel p m l = Ok (b, l) ∧
       (b = true ↔ ∀ k, k ∈ dom m → k ∈ xs.*2).
Proof.
  induction xs as [|[a w] xs IH]; intros p [|fuel] m Hseg Hfuel Hne Htrue;
    simpl in *; try lia.
  - subst p. exists false. split; [done|]. split; [done|].
    intros Hall. destruct (map_choose _ Hne) as (k & b & Hk).
    assert (k ∈ dom m) as Hd by (apply elem_of_dom; eauto).
    apply Hall in Hd. by apply elem_of_nil in Hd.
  - destruct Hseg as (-> & r & Ha & Hr).
    rewrite (bind_Ok _ _ _ _ _ (load_Ok _ _ _ Ha)). simpl.
    destruct (m !! w) as [b|] eqn:Hw; simpl.
    + rewrite (Htrue _ _ Hw). case_bool_decide as Hsz.
      * exists true. split; [done|]. split; [|done]. intros _ k Hk.
        apply map_size_empty_inv in Hsz.
        destruct (decide (k = w)) as [->|Hkw]; [left|].
        apply elem_of_dom in Hk as [b' Hk].
        assert (delete w m !! k = Some b') as Hdel
          by (by rewrite lookup_delete_ne).
        rewrite Hsz in Hdel. by rewrite lookup_empty in Hdel.
      * destruct (IH r fuel (delete w m)) as (b' & Hrun & Hb'); try done.
        { lia. }
        { intros Hempty. apply Hsz. by rewrite Hempty, map_size_empty. }
        { intros k b'' Hk. apply lookup_delete_Some in Hk as [_ Hk]. eauto. }
        exists b'. split; [done|]. rewrite Hb', dom_delete_L.
        split; intros Hall k Hk.
        -- destruct (decide (k = w)) as [->|Hkw]; [left|right].
           apply Hall. apply elem_of_difference. split; [done|].
           by rewrite elem_of_singleton.
        -- apply elem_of_difference in Hk as [Hk Hkw].
           apply Hall in Hk. apply elem_of_cons in Hk as [->|Hk]; [|done].
           by destruct Hkw; apply elem_of_singleton.
    + destruct (IH r fuel m) as (b' & Hrun & Hb'); try done. { lia. }
      exists b'. split; [done|]. rewrite Hb'.
      split; intros Hall k Hk.
      * right. by apply Hall.
      * pose proof (Hall k Hk) as [->|Hin]%elem_of_cons; [|done].
        apply elem_of_dom in Hk as [? Hk]. congruence.
Qed.

(** ** Writes to the store *)

Lemma store_next_Ok a v r q l :
  nodes l !! a = Some (Node v r) →
  store_next (Some a) q l
  = Ok (tt, mkList (<[a := Node v q]> (nodes l))
                   (list_first l) (list_last l) (list_size l)).
Proof.
  intros Ha. unfold store_next.
  by rewrite (bind_Ok _ _ _ _ _ (load_Ok _ _ _ Ha)).
Qed.

Lemma store_value_Ok a v r w l :
  nodes l !! a = Some (Node v r) →
  store_value (Some a) w l
  = Ok (tt, mkList (<[a := Node w r]> (nodes l))
                   (list_first l) (list_last l) (list_size l)).
Proof.
  intros Ha. unfold store_value.
  by rewrite (bind_Ok _ _ _ _ _ (load_Ok _ _ _ Ha)).
Qed.

Lemma fresh_lookup h : h !! fresh (dom h) = None.
Proof. apply not_elem_of_dom, is_fresh. Qed.

Lemma lseg_not_in h p xs q e : lseg h p xs q → h !! e = None → e ∉ xs.*1.
Proof.
  intros Hseg He Hin. eapply lseg_is_Some in Hin as [? Hin]; [|done].
  congruence.
Qed.

Lemma lseg_snoc h p xs t w e v :
  lseg h p (xs ++ [(t, w)]) None → h !! e = None →
  lseg (<[t := Node w (Some e)]> (<[e := Node v None]> h)) p
       ((xs ++ [(t, w)]) ++ [(e, v)]) None.
Proof.
  intros Hseg He.
  pose proof (lseg_not_in _ _ _ _ _ Hseg He) as Hne.
  pose proof (lseg_NoDup _ _ _ Hseg) as Hnd.
  rewrite fmap_app in Hnd, Hne. simpl in Hnd, Hne.
  apply NoDup_app in Hnd as (_ & Hdisj & _).
  apply not_elem_of_app in Hne as [Hne Het].
  apply not_elem_of_cons in Het as [Het _].
  apply lseg_app in Hseg as (r & Hxs & (-> & r' & Ht & ->)).
  apply lseg_app. exists (Some e). split.
  - apply lseg_app. exists (Some t). split.
    + apply lseg_insert; [|by apply lseg_insert].
      intros Hin. apply (Hdisj _ Hin). left.
    + simpl. split; [done|]. exists (Some e). by rewrite lookup_insert_eq.
  - simpl. split; [done|]. exists None.
    by rewrite lookup_insert_ne, lookup_insert_eq.
Qed.

Lemma Add_Repr values :
  ∀ l xs, Repr l xs → list_size l + Z.of_nat (length values) ≤ int_max →
  ∃ l' ys, Add values l = Ok (tt, l') ∧ Repr l' (xs ++ ys) ∧ ys.*2 = values.
Proof.
  induction values as [|v values IH];
    intros [h f la sz] xs (Hseg & Hlast & Hsz) Hmax; simpl in *.
  - eexists _, []. rewrite app_nil_r. done.
  - unfold bind at 1. unfold alloc. simpl.
    unfold bind at 1. unfold gets at 1. simpl.
    set (e := fresh (dom h)).
    assert (h !! e = None) as He by apply fresh_lookup.
    assert (wrap (sz + 1) = sz + 1) as Hw
      by (apply wrap_id; unfold int_min; lia).
    destruct xs as [|[t w] xs _] using rev_ind.
    + simpl in *. subst f la sz. rewrite bool_decide_true by done.
      simpl. unfold bind at 1. simpl.
      destruct (IH (mkList (<[e := Node v None]> h) (Some e) (Some e) 1)
                   [(e, v)]) as (l' & ys & Hrun & Hrep & Hys).
      { split; [|split]; simpl; [|done..].
        split; [done|]. exists None. by rewrite lookup_insert_eq. }
      { simpl. lia. }
      exists l', ((e, v) :: ys). split; [done|]. split; [done|].
      by rewrite fmap_cons, Hys.
    + rewrite length_app in Hsz. simpl in Hsz.
      rewrite bool_decide_false by lia.
      rewrite fmap_app in Hlast. simpl in Hlast. rewrite last_snoc in Hlast.
      subst la.
      pose proof Hseg as Hseg'.
      apply lseg_app in Hseg' as (r & _ & (-> & r' & Ht & ->)).
      unfold bind at 1. unfold bind at 1. unfold gets at 1. simpl.
      unfold bind at 1. rewrite (store_next_Ok t w None).
      2:{ simpl. rewrite lookup_insert_ne; [done|]. intros ->. congruence. }
      simpl. unfold bind at 1. simpl.
      destruct (IH (mkList (<[t := Node w (Some e)]> (<[e := Node v None]> h))
                           f (Some e) (wrap (sz + 1)))
                   ((xs ++ [(t, w)]) ++ [(e, v)])) as (l' & ys & Hrun & Hrep & Hys).
      { split; [|split]; simpl.
        - by apply lseg_snoc.
        - rewrite fmap_app. simpl. by rewrite last_snoc.
        - rewrite Hw, !length_app. simpl. lia. }
      { simpl. rewrite Hw. lia. }
      exists l', ((e, v) :: ys). split; [done|]. split.
      * by rewrite <- app_assoc in Hrep.
      * by rewrite fmap_cons, Hys.
Qed.

Lemma Prepend_from_Repr values :
  ∀ n l xs, Repr l xs → (n ≤ length values)%nat →
  list_size l + Z.of_nat n ≤ int_max →
  ∃ l' ys, Prepend_from n values l = Ok (tt, l') ∧ Repr l' (ys ++ xs) ∧
           ys.*2 = take n values.
Proof.
  induction n as [|n IH]; intros [h f la sz] xs (Hseg & Hlast & Hsz) Hn Hmax;
    simpl in Hseg, Hlast, Hsz, Hmax.
  - exists (mkList h f la sz), []. done.
  - destruct (lookup_lt_is_Some_2 values n ltac:(lia)) as [v Hv].
    cbn [Prepend_from]. rewrite Hv.
    unfold bind at 1. unfold gets at 1. cbn [list_first].
    unfold bind at 1. unfold alloc. cbn [nodes list_first list_last list_size].
    set (e := fresh (dom h)).
    assert (h !! e = None) as He by apply fresh_lookup.
    assert (wrap (sz + 1) = sz + 1) as Hw
      by (apply wrap_id; unfold int_min; lia).
    unfold bind at 1. unfold set_first at 1.
    cbn [nodes list_first list_last list_size].
    unfold bind at 1. unfold gets at 1. cbn [list_size].
    destruct (IH (mkList (<[e := Node v f]> h) (Some e)
                         (if bool_decide (sz = 0) then Some e else la)
                         (wrap (sz + 1)))
                 ((e, v) :: xs)) as (l' & ys & Hrun & Hrep & Hys).
    { split; [|split]; cbn [nodes list_first list_last list_size].
      - split; [done|]. exists f. rewrite lookup_insert_eq.
        split; [done|]. by apply lseg_alloc.
      - rewrite fmap_cons. cbn [fst]. case_bool_decide as Hz.
        + assert (xs = []) as -> by (destruct xs; simpl in *; [done|lia]).
          done.
        + rewrite last_cons, <- Hlast. destruct la; [done|].
          symmetry in Hlast. apply last_None, fmap_nil_inv in Hlast.
          subst xs. simpl in Hsz. lia.
      - rewrite Hw. simpl. lia. }
    { lia. }
    { cbn [list_size]. rewrite Hw. lia. }
    exists l', (ys ++ [(e, v)]). split; [|split].
    + rewrite <- Hrun. case_bool_decide; done.
    + by rewrite <- app_assoc.
    + rewrite fmap_app, Hys, (take_S_r _ _ _ Hv). done.
Qed.

Lemma Prepend_Repr values l xs :
  Repr l xs → list_size l + Z.of_nat (length values) ≤ int_max →
  ∃ l' ys, Prepend values l = Ok (tt, l') ∧ Repr l' (ys ++ xs) ∧
           ys.*2 = values.
Proof.
  intros Hrep Hmax.
  destruct (Prepend_from_Repr values (length values) l xs)
    as (l' & ys & Hrun & Hrep' & Hys); [done|lia|done|].
  exists l', ys. by rewrite firstn_all in Hys.
Qed.

Lemma ptr_fmap xs n : ptr xs n = xs.*1 !! n.
Proof. unfold ptr. by rewrite list_lookup_fmap. Qed.

Lemma ptr_inj h p xs i j a :
  lseg h p xs None → ptr xs i = Some a → ptr xs j = Some a → i = j.
Proof.
  intros Hseg%lseg_NoDup. rewrite !ptr_fmap. by apply NoDup_lookup.
Qed.

Lemma lseg_update h p (xs : list (loc * T)) n a v (w : T) :
  lseg h p xs None → xs !! n = Some (a, v) →
  lseg (<[a := Node w (ptr xs (S n))]> h) p (<[n := (a, w)]> xs) None.
Proof.
  intros Hseg Hn.
  destruct (lseg_split _ _ _ _ _ _ Hseg Hn) as (Hpre & Hpost & Ha1 & Ha2).
  rewrite insert_take_drop by (by eapply lookup_lt_Some).
  apply lseg_app. exists (Some a). split; [by apply lseg_insert|].
  simpl. split; [done|]. exists (ptr xs (S n)). rewrite lookup_insert_eq.
  split; [done|]. by apply lseg_insert.
Qed.

Lemma insert_fst (xs : list (loc * T)) n a v (w : T) :
  xs !! n = Some (a, v) → (<[n := (a, w)]> xs).*1 = xs.*1.
Proof.
  intros Hn. rewrite list_fmap_insert. cbn [fst]. apply list_insert_id.
  by rewrite list_lookup_fmap, Hn.
Qed.

Lemma store_value_Repr l (xs : list (loc * T)) n a v (w : T) :
  Repr l xs → xs !! n = Some (a, v) →
  ∃ l', store_value (Some a) w l = Ok (tt, l') ∧
        Repr l' (<[n := (a, w)]> xs).
Proof.
  intros (Hseg & Hlast & Hsz) Hn.
  pose proof (lseg_lookup _ _ _ _ _ _ Hseg Hn) as Ha.
  eexists. split; [by apply (store_value_Ok _ _ _ _ _ Ha)|].
  split; [|split]; cbn [nodes list_first list_last list_size].
  - by eapply lseg_update.
  - by rewrite (insert_fst _ _ _ _ _ Hn).
  - by rewrite length_insert.
Qed.

Lemma Set_Repr l (xs : list (loc * T)) n a v (w : T) :
  Repr l xs → xs !! n = Some (a, v) →
  ∃ l', Set_ (Z.of_nat n) w l = Ok (None, l') ∧
        Repr l' (<[n := (a, w)]> xs).
Proof.
  intros Hrep Hn. pose proof Hrep as (Hseg & Hlast & Hsz).
  destruct (store_value_Repr _ _ _ _ _ w Hrep Hn) as (l' & Hst & Hrep').
  exists l'. split; [|done]. unfold Set_.
  rewrite (bind_Ok _ _ _ _ _ (inBounds_eq _ l)).
  apply lookup_lt_Some in Hn as Hlt.
  rewrite !bool_decide_true by lia. simpl.
  unfold bind at 1. unfold gets. rewrite Nat2Z.id.
  rewrite (lseg_head _ _ _ Hseg).
  rewrite (bind_Ok _ _ _ _ _ (walk_ptr _ _ _ 0 n Hseg ltac:(simpl; lia))).
  simpl. rewrite (ptr_lookup _ _ _ _ Hn).
  by rewrite (bind_Ok _ _ _ _ _ Hst).
Qed.

Lemma Swap_loop_spec l p xs i j ai vi aj vj :
  lseg (nodes l) p xs None →
  xs !! i = Some (ai, vi) → xs !! j = Some (aj, vj) →
  Z.of_nat (length xs) ≤ int_max →
  ∀ k n fuel, (n + k = length xs)%nat → (k < fuel)%nat →
  Swap_loop fuel (Z.of_nat i) (Z.of_nat j) (Z.of_nat n) (ptr xs n)
    (if bool_decide (i < n)%nat then Some ai else None)
    (if bool_decide (j < n)%nat then Some aj else None) l
  = Ok ((Some ai, Some aj), l).
Proof.
  intros Hseg Hi Hj Hmax.
  apply lookup_lt_Some in Hi as Hilt. apply lookup_lt_Some in Hj as Hjlt.
  induction k as [|k IH]; intros n [|fuel] Hnk Hfuel; try lia.
  - rewrite ptr_ge by lia. simpl.
    by rewrite !(bool_decide_true (_ < _)%nat) by lia.
  - destruct (xs !! n) as [[a v]|] eqn:Hn.
    2:{ apply lookup_ge_None in Hn. lia. }
    rewrite (ptr_lookup _ _ _ _ Hn). cbn [Swap_loop].
    rewrite (bool_decide_true (Some a ≠ None)) by done.
    destruct (decide (i < n ∧ j < n)%nat) as [[Hin Hjn]|Hnot].
    + by rewrite !(bool_decide_true (_ < _)%nat) by lia.
    + assert ((bool_decide ((if bool_decide (i < n)%nat then Some ai else None)
                            = None)
               || bool_decide ((if bool_decide (j < n)%nat then Some aj else None)
                               = None)) = true) as ->.
      { apply orb_true_iff. rewrite !bool_decide_eq_true.
        destruct (decide (i < n)%nat); [right|left];
          rewrite bool_decide_false by lia; done. }
      cbn [andb].
      rewrite (bind_Ok _ _ _ _ _
                 (load_Ok _ _ _ (lseg_lookup _ _ _ _ _ _ Hseg Hn))).
      cbn [next].
      rewrite wrap_id by (unfold int_min; lia).
      replace (Z.of_nat n + 1) with (Z.of_nat (S n)) by lia.
      rewrite <- (IH (S n) fuel) by lia. f_equal.
      * repeat case_bool_decide; try lia; try done.
        assert (i = n) by lia. subst n. congruence.
      * repeat case_bool_decide; try lia; try done.
        assert (j = n) by lia. subst n. congruence.
Qed.

Lemma Swap_Repr l xs i j ai vi aj vj fuel :
  Repr l xs → xs !! i = Some (ai, vi) → xs !! j = Some (aj, vj) → i ≠ j →
  Z.of_nat (length xs) ≤ int_max → (length xs < fuel)%nat →
  ∃ l', Swap fuel (Z.of_nat i) (Z.of_nat j) l = Ok (None, l') ∧
        Repr l' (<[j := (aj, vi)]> (<[i := (ai, vj)]> xs)).
Proof.
  intros Hrep Hi Hj Hij Hmax Hfuel. pose proof Hrep as (Hseg & Hlast & Hsz).
  apply lookup_lt_Some in Hi as Hilt. apply lookup_lt_Some in Hj as Hjlt.
  destruct (store_value_Repr _ _ _ _ _ vj Hrep Hi) as (l1 & Hst1 & Hrep1).
  assert (<[i := (ai, vj)]> xs !! j = Some (aj, vj)) as Hj1
    by (by rewrite list_lookup_insert_ne).
  destruct (store_value_Repr _ _ _ _ _ vi Hrep1 Hj1) as (l2 & Hst2 & Hrep2).
  exists l2. split; [|done]. unfold Swap.
  rewrite (bind_Ok _ _ _ _ _ (inBounds_eq _ l)).
  rewrite (bind_Ok _ _ _ _ _ (inBounds_eq _ l)).
  rewrite !bool_decide_true by lia. cbn [andb negb orb].
  rewrite bool_decide_false by lia.
  unfold bind at 1. unfold gets. rewrite (lseg_head _ _ _ Hseg).
  pose proof (Swap_loop_spec l _ xs i j ai vi aj vj Hseg Hi Hj Hmax
                (length xs) 0%nat fuel ltac:(done) Hfuel) as Hloop.
  rewrite !(bool_decide_false (_ < 0)%nat) in Hloop by lia.
  change (Z.of_nat 0) with 0 in Hloop.
  rewrite (bind_Ok _ _ _ _ _ Hloop).
  rewrite (bind_Ok _ _ _ _ _
             (load_Ok _ _ _ (lseg_lookup _ _ _ _ _ _ Hseg Hi))).
  rewrite (bind_Ok _ _ _ _ _
             (load_Ok _ _ _ (lseg_lookup _ _ _ _ _ _ Hseg Hj))).
  cbn [value].
  rewrite (bind_Ok _ _ _ _ _ Hst1). by rewrite (bind_Ok _ _ _ _ _ Hst2).
Qed.

Lemma last_ptr (xs : list (loc * T)) :
  last (xs.*1) = ptr xs (pred (length xs)).
Proof. by rewrite last_lookup, length_fmap, ptr_fmap. Qed.

(** [Remove] up to the end of its loop. *)
Lemma Remove_prefix l xs n a v :
  Repr l xs → xs !! n = Some (a, v) →
  Remove (Z.of_nat n) l
  = (let prev := match n with O => None | S n' => ptr xs n' end in
     let node := Some a in
     first ← gets list_first;
     (if bool_decide (node = first)
      then (nd ← load node; set_first (next nd)) else ret tt);;
     lst ← gets list_last;
     (if bool_decide (node = lst) then set_last prev else ret tt);;
     (if bool_decide (prev ≠ None)
      then (nd ← load node; store_next prev (next nd)) else ret tt);;
     sz ← gets list_size;
     set_size (wrap (sz - 1));;
     ret None) l.
Proof.
  intros (Hseg & Hlast & Hsz) Hn.
  apply lookup_lt_Some in Hn as Hlt.
  unfold Remove.
  rewrite (bind_Ok _ _ _ _ _ (IsEmpty_eq l)).
  rewrite bool_decide_false by lia.
  rewrite (bind_Ok _ _ _ _ _ (inBounds_eq _ l)).
  rewrite !bool_decide_true by lia. cbn [andb negb].
  unfold bind at 1. unfold gets at 1. rewrite Nat2Z.id.
  rewrite (lseg_head _ _ _ Hseg) at 1.
  rewrite (bind_Ok _ _ _ _ _
             (walk_prev_ptr _ _ _ None 0 n Hseg ltac:(simpl; lia))).
  cbn [Nat.add]. by rewrite (ptr_lookup _ _ _ _ Hn).
Qed.

Lemma Remove_Repr l xs n a v :
  Repr l xs → list_size l ≤ int_max → xs !! n = Some (a, v) →
  ∃ l', Remove (Z.of_nat n) l = Ok (None, l') ∧ Repr l' (delete n xs).
Proof.
  intros Hrep Hmax Hn. rewrite (Remove_prefix _ _ _ _ _ Hrep Hn).
  destruct Hrep as (Hseg & Hlast & Hsz).
  apply lookup_lt_Some in Hn as Hlt.
  pose proof (lseg_lookup _ _ _ _ _ _ Hseg Hn) as Ha.
  destruct (lseg_split _ _ _ _ _ _ Hseg Hn) as (Hpre & Hpost & Ha1 & Ha2).
  assert (wrap (list_size l - 1) = list_size l - 1) as Hw.
  { apply wrap_id. unfold int_min, int_max in *. lia. }
  rewrite last_ptr in Hlast. pose proof (lseg_head _ _ _ Hseg) as Hfirst.
  destruct l as [h f la sz]. cbn [nodes list_first list_last list_size] in *.
  cbv zeta. unfold bind at 1. unfold gets at 1. cbn [list_first].
  destruct n as [|n].
  - (* the head is removed *)
    destruct xs as [|[a' v'] xs]; [done|]. injection Hn as -> ->.
    rewrite (bool_decide_true (Some a = f)) by done.
    unfold bind at 1. unfold bind at 1.
    rewrite (load_Ok a _ (mkList h f la sz) Ha). unfold set_first at 1.
    cbn [nodes list_first list_last list_size next].
    unfold bind at 1. unfold gets at 1. cbn [list_last].
    rewrite (bool_decide_false (None ≠ None)) by (by intros []).
    simpl length in *. rewrite ptr_cons in *. simpl in Hpost.
    rewrite drop_0 in Hpost. simpl delete.
    destruct xs as [|x xs].
    + subst la. rewrite bool_decide_true by done.
      eexists. split; [unfold bind, set_last, ret, gets, set_size; simpl;
                       reflexivity|].
      rewrite Hw. split; [|split]; simpl in *; [done..|lia].
    + rewrite bool_decide_false.
      2:{ rewrite Hlast. intros Hl. symmetry in Hl.
          apply (ptr_inj _ _ _ (S (length xs)) 0%nat _ Hseg) in Hl; done. }
      eexists. split; [unfold bind, set_last, ret, gets, set_size; simpl;
                       reflexivity|].
      rewrite Hw. split; [|split]; cbn [nodes list_first list_last list_size].
      * done.
      * by rewrite last_ptr.
      * simpl in *. lia.
  - (* an inner node or the tail is removed *)
    destruct (lookup_lt_is_Some_2 xs n ltac:(lia)) as [[b w] Hb].
    pose proof (lseg_lookup _ _ _ _ _ _ Hseg Hb) as Hbn.
    destruct (lseg_split _ _ _ _ _ _ Hseg Hb) as (Hpre' & _ & Hb1 & Hb2).
    rewrite (ptr_lookup _ _ _ _ Hb).
    rewrite (bool_decide_false (Some a = f)).
    2:{ rewrite Hfirst. intros Heq. symmetry in Heq.
        by apply (ptr_inj _ _ _ 0%nat (S n) _ Hseg) in Heq;
          [|by eapply ptr_lookup]. }
    unfold bind at 1. unfold ret at 1.
    unfold bind at 1. unfold gets at 1. cbn [list_last].
    rewrite (bool_decide_true (Some b ≠ None)) by done.
    set (h' := <[b := Node w (ptr xs (S (S n)))]> h).
    assert (lseg h' f (delete (S n) xs) None) as Hseg'.
    { rewrite delete_take_drop, (take_S_r _ _ _ Hb).
      apply lseg_app. exists (ptr xs (S (S n))). split.
      - apply lseg_app. exists (Some b). split.
        + by apply lseg_insert.
        + simpl. split; [done|]. exists (ptr xs (S (S n))).
          by unfold h'; rewrite lookup_insert_eq.
      - apply lseg_insert; [|done]. intros Hin. apply Hb2.
        rewrite (drop_S _ _ _ Hn), fmap_cons. by right. }
    assert (∀ la', load (Some a) (mkList h f la' sz)
                   = Ok (Node v (ptr xs (S (S n))), mkList h f la' sz))
      as Hload by (intros; by apply load_Ok).
    assert (∀ la', store_next (Some b) (ptr xs (S (S n))) (mkList h f la' sz)
                   = Ok (tt, mkList h' f la' sz))
      as Hstore by (intros; by erewrite store_next_Ok).
    assert (length (delete (S n) xs) = pred (length xs)) as Hlen.
    { rewrite length_delete by eauto. lia. }
    destruct (decide (S n = pred (length xs))) as [Hl|Hl].
    + rewrite bool_decide_true by (by rewrite Hlast, <- Hl, (ptr_lookup _ _ _ _ Hn)).
      eexists. split.
      { unfold bind at 1; unfold set_last at 1;
        cbn [nodes list_first list_last list_size];
        unfold bind at 1; unfold bind at 1; rewrite Hload; cbn [next];
        rewrite Hstore; unfold bind, gets, set_size, ret;
        cbn [nodes list_first list_last list_size]; reflexivity. }
      rewrite Hw. split; [|split]; cbn [nodes list_first list_last list_size];
        [done| |lia].
      rewrite last_ptr, Hlen. unfold ptr.
      rewrite delete_take_drop, lookup_app_l
        by (rewrite length_take; lia).
      rewrite lookup_take_lt by lia. rewrite <- Hl. simpl. by rewrite Hb.
    + rewrite bool_decide_false.
      2:{ rewrite Hlast. intros Heq. symmetry in Heq.
          apply (ptr_inj _ _ _ _ (S n) _ Hseg) in Heq;
            [done|by eapply ptr_lookup]. }
      eexists. split.
      { unfold bind at 1; unfold ret at 1;
        cbn [nodes list_first list_last list_size];
        unfold bind at 1; unfold bind at 1; rewrite Hload; cbn [next];
        rewrite Hstore; unfold bind, gets, set_size, ret;
        cbn [nodes list_first list_last list_size]; reflexivity. }
      rewrite Hw. split; [|split]; cbn [nodes list_first list_last list_size];
        [done| |lia].
      rewrite last_ptr, Hlen, Hlast. unfold ptr.
      rewrite list_lookup_delete_ge by lia.
      f_equal. f_equal. lia.
Qed.

(** The loop of [Insert]: [pre] is the chain before [prev], and [post]
    the chain that started at [oldNext]; the loop leaves [post] alone. *)
Lemma Insert_loop_spec values :
  ∀ l pre b w r q post,
  lseg (nodes l) (list_first l) pre (Some b) →
  nodes l !! b = Some (Node w r) →
  (b ∉ pre.*1) → lseg (nodes l) q post None → (b ∉ post.*1) →
  ∃ l' pre' b' w' r',
    Insert_loop values (Some b) l = Ok (Some b', l') ∧
    list_first l' = list_first l ∧ list_last l' = list_last l ∧
    list_size l' = list_size l ∧
    lseg (nodes l') (list_first l') pre' (Some b') ∧
    nodes l' !! b' = Some (Node w' r') ∧
    (b' ∉ pre'.*1) ∧ lseg (nodes l') q post None ∧ (b' ∉ post.*1) ∧
    ∃ ys, pre' ++ [(b', w')] = (pre ++ [(b, w)]) ++ ys ∧ ys.*2 = values.
Proof.
  induction values as [|v values IH];
    intros [h f la sz] pre b w r q post Hpre Hb Hb1 Hpost Hb2;
    cbn [nodes list_first list_last list_size] in *.
  - exists (mkList h f la sz), pre, b, w, r. split; [done|].
    repeat (split; [done|]). exists []. by rewrite app_nil_r.
  - cbn [Insert_loop]. unfold bind at 1. unfold alloc.
    cbn [nodes list_first list_last list_size].
    set (e := fresh (dom h)).
    assert (h !! e = None) as He by apply fresh_lookup.
    assert (e ≠ b) as Heb by (intros ->; congruence).
    unfold bind at 1.
    rewrite (store_next_Ok b w r).
    2:{ cbn [nodes]. by rewrite lookup_insert_ne. }
    cbn [nodes list_first list_last list_size].
    set (h' := <[b := Node w (Some e)]> (<[e := Node v None]> h)).
    pose proof (lseg_not_in _ _ _ _ _ Hpre He) as He1.
    pose proof (lseg_not_in _ _ _ _ _ Hpost He) as He2.
    destruct (IH (mkList h' f la sz) (pre ++ [(b, w)]) e v None q post)
      as (l' & pre' & b' & w' & r' & Hrun & Hf & Hla & Hs & Hpre' & Hb'
          & Hb1' & Hpost' & Hb2' & ys & Hys & Hvs);
      cbn [nodes list_first list_last list_size].
    + apply lseg_app. exists (Some b). split.
      * apply lseg_insert; [done|]. by apply lseg_insert.
      * simpl. split; [done|]. exists (Some e).
        by unfold h'; rewrite lookup_insert_eq.
    + unfold h'. by rewrite lookup_insert_ne, lookup_insert_eq.
    + rewrite fmap_app. simpl. apply not_elem_of_app. split; [done|].
      apply not_elem_of_cons. split; [done|apply not_elem_of_nil].
    + apply lseg_insert; [done|]. by apply lseg_insert.
    + done.
    + exists l', pre', b', w', r'. split; [done|].
      cbn [nodes list_first list_last list_size] in *.
      repeat (split; [done|]). exists ((e, v) :: ys). split.
      * rewrite Hys. by rewrite <- !app_assoc.
      * by rewrite fmap_cons, Hvs.
Qed.

Lemma walk_prev_head l p xs prev n :
  lseg (nodes l) p xs None → (n ≤ length xs)%nat →
  walk_prev n prev p l
  = Ok ((match n with O => prev | S n' => ptr xs n' end, ptr xs n), l).
Proof.
  intros Hseg Hn. rewrite (lseg_head _ _ _ Hseg) at 1.
  by rewrite (walk_prev_ptr _ _ _ prev 0 n Hseg).
Qed.

Lemma Insert_inner_Repr l xs n values :
  Repr l xs → (0 < n < length xs)%nat →
  list_size l + Z.of_nat (length values) ≤ int_max →
  ∃ l' ys, Insert (Z.of_nat n) values l = Ok (None, l') ∧
           Repr l' (take n xs ++ ys ++ drop n xs) ∧ ys.*2 = values.
Proof.
  intros (Hseg & Hlast & Hsz) Hn Hmax.
  destruct n as [|n]; [lia|].
  destruct (lookup_lt_is_Some_2 xs n ltac:(lia)) as [[b w] Hb].
  destruct (lookup_lt_is_Some_2 xs (S n) ltac:(lia)) as [[a v] Ha].
  pose proof (lseg_lookup _ _ _ _ _ _ Hseg Hb) as Hbn.
  destruct (lseg_split _ _ _ _ _ _ Hseg Hb) as (Hpre & Hpost & Hb1 & Hb2).
  assert (wrap (list_size l + Z.of_nat (length values))
          = list_size l + Z.of_nat (length values)) as Hw.
  { apply wrap_id. unfold int_min. lia. }
  unfold Insert.
  rewrite (bind_Ok _ _ _ _ _ (inBounds_eq _ l)).
  rewrite !bool_decide_true by lia. cbn [andb negb].
  rewrite bool_decide_false by lia.
  unfold bind at 1. unfold gets at 1.
  unfold bind at 1. unfold set_size at 1.
  unfold bind at 1. unfold gets at 1.
  cbn [nodes list_first list_last list_size].
  rewrite Hw, Nat2Z.id.
  destruct l as [h f la sz]. cbn [nodes list_first list_last list_size] in *.
  set (l1 := mkList h f la (sz + Z.of_nat (length values))).
  rewrite (bind_Ok _ _ _ _ _
             (walk_prev_head l1 _ _ None (S n) Hseg ltac:(lia))).
  rewrite (ptr_lookup _ _ _ _ Hb).
  rewrite (bind_Ok _ _ _ _ _ (load_Ok b _ l1 Hbn)). cbn [next].
  destruct (Insert_loop_spec values l1 (take n xs) b w _ _ _
              Hpre Hbn Hb1 Hpost Hb2)
    as (l' & pre' & b' & w' & r' & Hrun & Hf & Hla & Hs & Hpre' & Hb'
        & Hb1' & Hpost' & Hb2' & ys & Hys & Hvs).
  rewrite (bind_Ok _ _ _ _ _ Hrun).
  unfold bind at 1. rewrite (store_next_Ok _ _ _ _ _ Hb').
  eexists _, ys. split; [reflexivity|]. split; [|done].
  rewrite Hf, Hla, Hs in *. subst l1.
  cbn [nodes list_first list_last list_size] in *.
  rewrite (take_S_r _ _ _ Hb), app_assoc, <- Hys.
  split; [|split]; cbn [nodes list_first list_last list_size].
  - rewrite <- app_assoc. apply lseg_app. exists (Some b').
    split; [by apply lseg_insert|].
    simpl. split; [done|]. exists (ptr xs (S n)).
    rewrite lookup_insert_eq. split; [done|]. by apply lseg_insert.
  - rewrite Hlast, !fmap_app.
    rewrite <- (take_drop (S n) xs) at 1. rewrite fmap_app.
    destruct (drop (S n) xs) as [|x post] eqn:Hd.
    { apply (f_equal length) in Hd. rewrite length_drop in Hd.
      simpl in Hd. lia. }
    rewrite !fmap_cons, !last_app_cons. done.
  - pose proof (f_equal length Hys) as Hlen.
    rewrite !length_app, ?length_take, ?length_drop in *.
    rewrite <- Hvs, length_fmap. simpl in *. lia.
Qed.

(** ** The failing paths, on any list *)

Lemma inBounds_false index l :
  ¬ in_range l index →
  bool_decide (0 ≤ index) && bool_decide (index < list_size l) = false.
Proof.
  unfold in_range. intros Hout. apply andb_false_iff.
  rewrite !bool_decide_eq_false. lia.
Qed.

Lemma inBounds_true index l :
  in_range l index →
  bool_decide (0 ≤ index) && bool_decide (index < list_size l) = true.
Proof.
  unfold in_range. intros Hin. apply andb_true_iff.
  rewrite !bool_decide_eq_true. lia.
Qed.

Lemma First_empty l :
  list_size l = 0 → First zero l = Ok ((zero, Some ErrEmptyList), l).
Proof.
  intros Hz. unfold First. rewrite (bind_Ok _ _ _ _ _ (IsEmpty_eq l)).
  by rewrite bool_decide_true.
Qed.

Lemma Last_empty l :
  list_size l = 0 → Last zero l = Ok ((zero, Some ErrEmptyList), l).
Proof.
  intros Hz. unfold Last. rewrite (bind_Ok _ _ _ _ _ (IsEmpty_eq l)).
  by rewrite bool_decide_true.
Qed.

Lemma IndexOf_empty fuel v l :
  list_size l = 0 → IndexOf fuel v l = Ok ((-1, Some ErrEmptyList), l).
Proof.
  intros Hz. unfold IndexOf. rewrite (bind_Ok _ _ _ _ _ (IsEmpty_eq l)).
  by rewrite bool_decide_true.
Qed.

Lemma Remove_empty index l :
  list_size l = 0 → Remove index l = Ok (Some ErrEmptyList, l).
Proof.
  intros Hz. unfold Remove. rewrite (bind_Ok _ _ _ _ _ (IsEmpty_eq l)).
  by rewrite bool_decide_true.
Qed.

Lemma Get_out_of_range index l :
  ¬ in_range l index →
  Get zero index l = Ok ((zero, Some ErrIndexOutOfBounds), l).
Proof.
  intros Hout. unfold Get. rewrite (bind_Ok _ _ _ _ _ (inBounds_eq _ l)).
  by rewrite inBounds_false.
Qed.

Lemma Set_out_of_range index v l :
  ¬ in_range l index → Set_ index v l = Ok (Some ErrIndexOutOfBounds, l).
Proof.
  intros Hout. unfold Set_. rewrite (bind_Ok _ _ _ _ _ (inBounds_eq _ l)).
  by rewrite inBounds_false.
Qed.

Lemma Remove_out_of_range index l :
  list_size l ≠ 0 → ¬ in_range l index →
  Remove index l = Ok (Some ErrIndexOutOfBounds, l).
Proof.
  intros Hnz Hout. unfold Remove.
  rewrite (bind_Ok _ _ _ _ _ (IsEmpty_eq l)).
  rewrite bool_decide_false by done.
  rewrite (bind_Ok _ _ _ _ _ (inBounds_eq _ l)).
  by rewrite inBounds_false.
Qed.

Lemma Swap_out_of_range fuel i j l :
  ¬ in_range l i ∨ ¬ in_range l j →
  Swap fuel i j l = Ok (Some ErrIndexOutOfBounds, l).
Proof.
  intros Hout. unfold Swap.
  rewrite (bind_Ok _ _ _ _ _ (inBounds_eq _ l)).
  rewrite (bind_Ok _ _ _ _ _ (inBounds_eq _ l)).
  destruct Hout as [Hout|Hout]; rewrite (inBounds_false _ _ Hout);
    [done|by rewrite orb_true_r].
Qed.

Lemma Swap_same fuel i l :
  in_range l i → Swap fuel i i l = Ok (None, l).
Proof.
  intros Hin. unfold Swap.
  rewrite (bind_Ok _ _ _ _ _ (inBounds_eq _ l)).
  rewrite (bind_Ok _ _ _ _ _ (inBounds_eq _ l)).
  rewrite (inBounds_true _ _ Hin). cbn [negb orb].
  by rewrite bool_decide_true.
Qed.

Lemma Insert_out_of_range index values l :
  ¬ in_range l index → index ≠ list_size l →
  Insert index values l = Ok (Some ErrIndexOutOfBounds, l).
Proof.
  intros Hout Hne. unfold Insert.
  rewrite (bind_Ok _ _ _ _ _ (inBounds_eq _ l)).
  rewrite inBounds_false by done. cbn [negb].
  unfold bind, gets. by rewrite bool_decide_false by lia.
Qed.

Lemma Insert_at_size values l :
  Insert (list_size l) values l = (Append values;; ret None) l.
Proof.
  unfold Insert. rewrite (bind_Ok _ _ _ _ _ (inBounds_eq _ l)).
  rewrite inBounds_false by (unfold in_range; lia). cbn [negb].
  unfold bind at 1. unfold gets at 1. by rewrite bool_decide_true.
Qed.

Lemma Insert_at_zero values l :
  list_size l ≠ 0 → 0 ≤ list_size l →
  Insert 0 values l = (Prepend values;; ret None) l.
Proof.
  intros Hnz Hpos. unfold Insert.
  rewrite (bind_Ok _ _ _ _ _ (inBounds_eq _ l)).
  rewrite inBounds_true by (unfold in_range; lia). cbn [negb].
  by rewrite bool_decide_true.
Qed.

(** ** The loops of the queries write nothing *)

Lemma load_ro p l nd l' : load p l = Ok (nd, l') → l' = l.
Proof. by intros [-> _]%load_inv. Qed.

Lemma walk_ro n : ∀ p l r l', walk n p l = Ok (r, l') → l' = l.
Proof.
  induction n as [|n IH]; intros p l r l'; simpl.
  - by intros [= _ ->].
  - intros (nd & l1 & ->%load_ro & Hk)%bind_inv. eauto.
Qed.

Lemma Values_loop_ro k :
  ∀ i p (vals : list T) l r l',
  Values_loop k i p vals l = Ok (r, l') → l' = l.
Proof.
  induction k as [|k IH]; intros i [a|] vals l r l'; simpl;
    try (by intros [= _ ->]); try done.
  intros (nd & l1 & ->%load_ro & Hk)%bind_inv. eauto.
Qed.

Lemma IndexOf_loop_ro fuel v :
  ∀ p index l r l', IndexOf_loop fuel p index v l = Ok (r, l') → l' = l.
Proof.
  induction fuel as [|fuel IH]; intros [a|] index l r l'; simpl;
    try (by intros [= _ ->]); try done.
  intros (nd & l1 & ->%load_ro & Hk)%bind_inv.
  case_bool_decide; [by injection Hk as _ ->|eauto].
Qed.

Lemma Contains_loop_ro fuel :
  ∀ p (m : gmap T bool) l r l',
  Contains_loop fuel p m l = Ok (r, l') → l' = l.
Proof.
  induction fuel as [|fuel IH]; intros [a|] m l r l'; simpl;
    try (by intros [= _ ->]); try done.
  intros (nd & l1 & ->%load_ro & Hk)%bind_inv.
  destruct (default false (m !! value nd)); [|eauto].
  case_bool_decide; [by injection Hk as _ ->|eauto].
Qed.

Lemma Swap_loop_ro fuel i j :
  ∀ n p n1 n2 l r l',
  Swap_loop fuel i j n p n1 n2 l = Ok (r, l') → l' = l.
Proof.
  induction fuel as [|fuel IH]; intros n p n1 n2 l r l'; simpl; [done|].
  destruct (_ && _); [|by intros [= _ ->]].
  intros (nd & l1 & ->%load_ro & Hk)%bind_inv. eauto.
Qed.

(** ** From the invariant to the chain and back *)

Lemma Repr_Inv l xs : Repr l xs → list_size l ≤ int_max → Inv l.
Proof. intros Hrep Hmax. apply Inv_Repr. eauto. Qed.

Lemma Inv_Values l :
  Inv l →
  ∃ xs, Repr l xs ∧ list_size l ≤ int_max ∧ Values zero l = Ok (xs.*2, l).
Proof.
  intros (Hmax & xs & Hrep)%Inv_Repr. exists xs.
  split; [done|]. split; [done|]. by apply Values_Repr.
Qed.

Lemma Repr_length l xs : Repr l xs → list_size l = Z.of_nat (length xs).
Proof. by intros (_ & _ & ?). Qed.

Lemma IndexOf_Repr l xs fuel v :
  Repr l xs → list_size l ≤ int_max → (length xs < fuel)%nat → xs ≠ [] →
  IndexOf fuel v l
  = Ok (match list_find (λ x, x = v) (xs.*2) with
        | Some (j, _) => (Z.of_nat j, None)
        | None => (-1, Some ErrElementNotFound)
        end, l).
Proof.
  intros (Hseg & Hlast & Hsz) Hmax Hfuel Hne. unfold IndexOf.
  rewrite (bind_Ok _ _ _ _ _ (IsEmpty_eq l)).
  rewrite bool_decide_false by (destruct xs; simpl in *; [done|lia]).
  unfold bind, gets.
  rewrite (IndexOf_loop_spec l v xs _ fuel 0 Hseg) by (done || lia).
  by destruct (list_find _ _) as [[j y]|].
Qed.

Lemma Contains_Repr l xs fuel values :
  Repr l xs → (length xs < fuel)%nat →
  ∃ b, Contains fuel values l = Ok (b, l) ∧
       (b = true ↔
        values = [] ∨
        ((length values ≤ length xs)%nat ∧ ∀ v, v ∈ values → v ∈ xs.*2)).
Proof.
  intros (Hseg & Hlast & Hsz) Hfuel. unfold Contains.
  case_bool_decide as Hnil.
  { exists true. split; [done|]. split; [|done]. intros _. left.
    by apply nil_length_inv. }
  unfold bind at 1. unfold gets at 1.
  assert (values ≠ []) as Hne by (by intros ->).
  destruct (bool_decide (list_size l = 0)
            || bool_decide (list_size l < Z.of_nat (length values))) eqn:Hguard.
  { exists false. split; [done|]. split; [done|]. intros [?|[Hlen _]]; [done|].
    apply orb_true_iff in Hguard.
    rewrite !bool_decide_eq_true in Hguard. lia. }
  apply orb_false_iff in Hguard as [Hz Hlt].
  apply bool_decide_eq_false in Hz, Hlt.
  unfold bind, gets.
  destruct (values_to_find_spec values) as [Hdom Htrue].
  destruct (Contains_loop_spec l xs (list_first l) fuel (values_to_find values))
    as (b & Hrun & Hb); try done.
  { intros Hempty. apply (f_equal dom) in Hempty.
    rewrite Hdom, dom_empty_L in Hempty.
    destruct values as [|v ?]; [done|]. simpl in Hempty.
    apply (not_elem_of_empty (C:=gset T) v). rewrite <- Hempty.
    apply elem_of_union_l. by apply elem_of_singleton. }
  exists b. split; [done|]. rewrite Hb, Hdom. split.
  - intros Hall. right. split; [lia|]. intros v Hv. apply Hall.
    by apply elem_of_list_to_set.
  - intros [?|[_ Hall]]; [done|]. intros v Hv. apply Hall.
    by apply elem_of_list_to_set in Hv.
Qed.

Lemma Append_Repr values l xs :
  Repr l xs → list_size l + Z.of_nat (length values) ≤ int_max →
  ∃ l' ys, Append values l = Ok (tt, l') ∧ Repr l' (xs ++ ys) ∧
           ys.*2 = values.
Proof. apply Add_Repr. Qed.

(** [Insert] at any index of [[0, size]]. *)
Lemma Insert_Repr l xs n values :
  Repr l xs → (n ≤ length xs)%nat →
  list_size l + Z.of_nat (length values) ≤ int_max →
  ∃ l' ys, Insert (Z.of_nat n) values l = Ok (None, l') ∧
           Repr l' (take n xs ++ ys ++ drop n xs) ∧ ys.*2 = values.
Proof.
  intros Hrep Hn Hmax. pose proof (Repr_length _ _ Hrep) as Hsz.
  destruct (decide (n = length xs)) as [->|Hlt].
  - replace (Z.of_nat (length xs)) with (list_size l) by done.
    rewrite Insert_at_size.
    destruct (Append_Repr values l xs Hrep Hmax) as (l' & ys & Hrun & Hr & Hys).
    exists l', ys. rewrite (bind_Ok _ _ _ _ _ Hrun).
    split; [done|]. split; [|done].
    by rewrite firstn_all, drop_all, app_nil_r.
  - destruct n as [|n].
    + change (Z.of_nat 0) with 0. rewrite Insert_at_zero by lia.
      destruct (Prepend_Repr values l xs Hrep Hmax)
        as (l' & ys & Hrun & Hr & Hys).
      exists l', ys. rewrite (bind_Ok _ _ _ _ _ Hrun).
      split; [done|]. split; [|done]. by rewrite take_0, drop_0.
    + apply Insert_inner_Repr; [done|lia|done].
Qed.

(** ** Every call returns on a well-formed list and keeps it well-formed *)

Lemma in_range_lookup l xs index :
  Repr l xs → in_range l index →
  ∃ a v, xs !! Z.to_nat index = Some (a, v) ∧ Z.of_nat (Z.to_nat index) = index.
Proof.
  intros Hrep [H0 Hlt]. rewrite (Repr_length _ _ Hrep) in Hlt.
  destruct (lookup_lt_is_Some_2 xs (Z.to_nat index) ltac:(lia)) as [[a v] Hx].
  exists a, v. split; [done|lia].
Qed.

Lemma exec_Inv fuel c l :
  Inv l → list_size l < Z.of_nat fuel → list_size l + grows c ≤ int_max →
  ∃ r l', exec zero fuel c l = Ok (r, l') ∧ Inv l' ∧
          list_size l' ≤ list_size l + grows c.
Proof.
  intros HInv Hfuel Hgrow. pose proof HInv as HInv'.
  apply Inv_Repr in HInv' as (Hmax & xs & Hrep).
  pose proof (Repr_length _ _ Hrep) as Hsz.
  destruct c as [| |values|values|values| | |index| |v| |index|values|i j
                 |index values|index v]; cbn [exec grows] in *.
  - (* Size *)
    exists (RInt (list_size l)), l. split; [done|]. split; [done|lia].
  - (* IsEmpty *)
    exists (RBool (bool_decide (list_size l = 0))), l.
    split; [done|]. split; [done|lia].
  - (* Add *)
    destruct (Add_Repr values l xs Hrep Hgrow) as (l' & ys & Hrun & Hr & Hys).
    exists RUnit, l'. rewrite (bind_Ok _ _ _ _ _ Hrun).
    pose proof (Repr_length _ _ Hr) as Hsz'. rewrite length_app in Hsz'.
    rewrite <- Hys, length_fmap in Hgrow |- *.
    split; [done|]. split; [|lia]. eapply Repr_Inv; [done|lia].
  - (* Append *)
    destruct (Append_Repr values l xs Hrep Hgrow)
      as (l' & ys & Hrun & Hr & Hys).
    exists RUnit, l'. rewrite (bind_Ok _ _ _ _ _ Hrun).
    pose proof (Repr_length _ _ Hr) as Hsz'. rewrite length_app in Hsz'.
    rewrite <- Hys, length_fmap in Hgrow |- *.
    split; [done|]. split; [|lia]. eapply Repr_Inv; [done|lia].
  - (* Prepend *)
    destruct (Prepend_Repr values l xs Hrep Hgrow)
      as (l' & ys & Hrun & Hr & Hys).
    exists RUnit, l'. rewrite (bind_Ok _ _ _ _ _ Hrun).
    pose proof (Repr_length _ _ Hr) as Hsz'. rewrite length_app in Hsz'.
    rewrite <- Hys, length_fmap in Hgrow |- *.
    split; [done|]. split; [|lia]. eapply Repr_Inv; [done|lia].
  - (* First *)
    destruct xs as [|[a v] xs].
    + eexists _, l. rewrite (bind_Ok _ _ _ _ _ (First_empty l Hsz)).
      split; [done|]. split; [done|lia].
    + eexists _, l. rewrite (bind_Ok _ _ _ _ _ (First_Repr _ _ _ _ Hrep)).
      split; [done|]. split; [done|lia].
  - (* Last *)
    destruct xs as [|[a v] xs _] using rev_ind.
    + eexists _, l. rewrite (bind_Ok _ _ _ _ _ (Last_empty l Hsz)).
      split; [done|]. split; [done|lia].
    + eexists _, l. rewrite (bind_Ok _ _ _ _ _ (Last_Repr _ _ _ _ Hrep)).
      split; [done|]. split; [done|lia].
  - (* Get *)
    destruct (decide (in_range l index)) as [Hin|Hout].
    + destruct (in_range_lookup _ _ _ Hrep Hin) as (a & v & Hx & Hi).
      eexists _, l. rewrite <- Hi.
      rewrite (bind_Ok _ _ _ _ _ (Get_Repr _ _ _ _ _ Hrep Hx)).
      split; [done|]. split; [done|lia].
    + eexists _, l. rewrite (bind_Ok _ _ _ _ _ (Get_out_of_range _ _ Hout)).
      split; [done|]. split; [done|lia].
  - (* Values *)
    eexists _, l. rewrite (bind_Ok _ _ _ _ _ (Values_Repr _ _ Hrep)).
    split; [done|]. split; [done|lia].
  - (* IndexOf *)
    destruct (decide (xs = [])) as [->|Hne].
    + eexists _, l. rewrite (bind_Ok _ _ _ _ _ (IndexOf_empty fuel v l Hsz)).
      split; [done|]. split; [done|lia].
    + pose proof (IndexOf_Repr _ _ fuel v Hrep Hmax ltac:(lia) Hne) as Hrun.
      destruct (list_find _ _) as [[??]|]; eexists _, l;
        rewrite (bind_Ok _ _ _ _ _ Hrun);
        (split; [done|]; split; [done|lia]).
  - (* Clear *)
    eexists _, _. split; [reflexivity|]. split; [done|].
    cbn. unfold Inv, well_formed in HInv.
    apply andb_prop in HInv as [[H0%bool_decide_eq_true _]%andb_prop _]. lia.
  - (* Remove *)
    destruct (decide (list_size l = 0)) as [Hz|Hnz].
    { eexists _, l. rewrite (bind_Ok _ _ _ _ _ (Remove_empty index l Hz)).
      split; [done|]. split; [done|lia]. }
    destruct (decide (in_range l index)) as [Hin|Hout].
    + destruct (in_range_lookup _ _ _ Hrep Hin) as (a & v & Hx & Hi).
      destruct (Remove_Repr _ _ _ _ _ Hrep Hmax Hx) as (l' & Hrun & Hr).
      eexists _, l'. rewrite <- Hi. rewrite (bind_Ok _ _ _ _ _ Hrun).
      pose proof (Repr_length _ _ Hr) as Hsz'.
      rewrite length_delete in Hsz' by eauto.
      split; [done|]. split; [|lia]. eapply Repr_Inv; [done|lia].
    + eexists _, l.
      rewrite (bind_Ok _ _ _ _ _ (Remove_out_of_range _ _ Hnz Hout)).
      split; [done|]. split; [done|lia].
  - (* Contains *)
    destruct (Contains_Repr l xs fuel values Hrep ltac:(lia))
      as (b & Hrun & _).
    eexists _, l. rewrite (bind_Ok _ _ _ _ _ Hrun).
    split; [done|]. split; [done|lia].
  - (* Swap *)
    destruct (decide (in_range l i ∧ in_range l j)) as [[Hi Hj]|Hout].
    + destruct (decide (i = j)) as [<-|Hij].
      { eexists _, l. rewrite (bind_Ok _ _ _ _ _ (Swap_same fuel i l Hi)).
        split; [done|]. split; [done|lia]. }
      destruct (in_range_lookup _ _ _ Hrep Hi) as (ai & vi & Hxi & Hzi).
      destruct (in_range_lookup _ _ _ Hrep Hj) as (aj & vj & Hxj & Hzj).
      destruct (Swap_Repr l xs _ _ ai vi aj vj fuel Hrep Hxi Hxj)
        as (l' & Hrun & Hr); [lia..|].
      rewrite Hzi, Hzj in Hrun.
      eexists _, l'. rewrite (bind_Ok _ _ _ _ _ Hrun).
      pose proof (Repr_length _ _ Hr) as Hsz'.
      rewrite !length_insert in Hsz'.
      split; [done|]. split; [|lia]. eapply Repr_Inv; [done|lia].
    + eexists _, l. rewrite (bind_Ok _ _ _ _ _ (Swap_out_of_range fuel i j l
                               ltac:(by apply not_and_l in Hout))).
      split; [done|]. split; [done|lia].
  - (* Insert *)
    destruct (decide (0 ≤ index ≤ list_size l)) as [Hin|Hout].
    + destruct (Insert_Repr l xs (Z.to_nat index) values Hrep ltac:(lia) Hgrow)
        as (l' & ys & Hrun & Hr & Hys).
      rewrite Z2Nat.id in Hrun by lia.
      eexists _, l'. rewrite (bind_Ok _ _ _ _ _ Hrun).
      pose proof (Repr_length _ _ Hr) as Hsz'.
      rewrite !length_app, length_take, length_drop in Hsz'.
      rewrite <- Hys, length_fmap in Hgrow |- *.
      split; [done|]. split; [|lia]. eapply Repr_Inv; [done|lia].
    + eexists _, l.
      rewrite (bind_Ok _ _ _ _ _ (Insert_out_of_range index values l
                 ltac:(unfold in_range; lia) ltac:(lia))).
      split; [done|]. split; [done|lia].
  - (* Set *)
    destruct (decide (in_range l index)) as [Hin|Hout].
    + destruct (in_range_lookup _ _ _ Hrep Hin) as (a & w & Hx & Hi).
      destruct (Set_Repr _ _ _ _ _ v Hrep Hx) as (l' & Hrun & Hr).
      rewrite Hi in Hrun.
      eexists _, l'. rewrite (bind_Ok _ _ _ _ _ Hrun).
      pose proof (Repr_length _ _ Hr) as Hsz'.
      rewrite !length_insert in Hsz'.
      split; [done|]. split; [|lia]. eapply Repr_Inv; [done|lia].
    + eexists _, l.
      rewrite (bind_Ok _ _ _ _ _ (Set_out_of_range _ v _ Hout)).
      split; [done|]. split; [done|lia].
Qed.

(** ** A call that returns an error has written nothing *)

Ltac inv_bind H :=
  let x := fresh "x" in
  let l1 := fresh "l" in
  let H1 := fresh "Hrun" in
  apply bind_inv in H as (x & l1 & H1 & H).

Ltac inv_ret H :=
  rewrite ?IsEmpty_eq, ?inBounds_eq in H; cbv [Size gets ret] in H;
  injection H as ??; subst.

Ltac inv_binds H :=
  repeat (inv_bind H;
          repeat match goal with p : (_ * _)%type |- _ => destruct p end).

Lemma First_error l v e l' :
  First zero l = Ok ((v, e), l') → e ≠ None → l' = l.
Proof.
  unfold First. intros Hrun He. inv_bind Hrun.
  inv_ret Hrun0.
  case_bool_decide; [by inv_ret Hrun|].
  inv_binds Hrun. by inv_ret Hrun.
Qed.

Lemma Last_error l v e l' :
  Last zero l = Ok ((v, e), l') → e ≠ None → l' = l.
Proof.
  unfold Last. intros Hrun He. inv_bind Hrun.
  inv_ret Hrun0.
  case_bool_decide; [by inv_ret Hrun|].
  inv_binds Hrun. by inv_ret Hrun.
Qed.

Lemma Get_error index l v e l' :
  Get zero index l = Ok ((v, e), l') → e ≠ None → l' = l.
Proof.
  unfold Get. intros Hrun He. inv_bind Hrun.
  inv_ret Hrun0.
  destruct (_ && _); cbn [negb] in Hrun; [|by inv_ret Hrun].
  inv_binds Hrun. by inv_ret Hrun.
Qed.

Lemma IndexOf_ro fuel v l r l' : IndexOf fuel v l = Ok (r, l') → l' = l.
Proof.
  unfold IndexOf. intros Hrun. inv_bind Hrun.
  inv_ret Hrun0.
  case_bool_decide; [by inv_ret Hrun|].
  inv_bind Hrun. inv_ret Hrun0. by apply IndexOf_loop_ro in Hrun.
Qed.

Lemma Remove_error index l e l' :
  Remove index l = Ok (e, l') → e ≠ None → l' = l.
Proof.
  unfold Remove. intros Hrun He. inv_bind Hrun.
  inv_ret Hrun0.
  case_bool_decide; [by inv_ret Hrun|].
  inv_bind Hrun. inv_ret Hrun0.
  destruct (_ && _); cbn [negb] in Hrun; [|by inv_ret Hrun].
  inv_binds Hrun. by inv_ret Hrun.
Qed.

Lemma Swap_error fuel i j l e l' :
  Swap fuel i j l = Ok (e, l') → e ≠ None → l' = l.
Proof.
  unfold Swap. intros Hrun He. inv_bind Hrun.
  inv_ret Hrun0.
  inv_bind Hrun. inv_ret Hrun0.
  destruct (_ || _); [by inv_ret Hrun|].
  case_bool_decide; [by inv_ret Hrun|].
  inv_binds Hrun. by inv_ret Hrun.
Qed.

Lemma Insert_error index values l e l' :
  Insert index values l = Ok (e, l') → e ≠ None → l' = l.
Proof.
  unfold Insert. intros Hrun He. inv_bind Hrun.
  inv_ret Hrun0.
  destruct (_ && _); cbn [negb] in Hrun.
  - case_bool_decide.
    + inv_bind Hrun. by inv_ret Hrun.
    + inv_binds Hrun. by inv_ret Hrun.
  - inv_bind Hrun. inv_ret Hrun0. case_bool_decide.
    + inv_bind Hrun. by inv_ret Hrun.
    + by inv_ret Hrun.
Qed.

Lemma Set_error index v l e l' :
  Set_ index v l = Ok (e, l') → e ≠ None → l' = l.
Proof.
  unfold Set_. intros Hrun He. inv_bind Hrun.
  inv_ret Hrun0.
  destruct (_ && _); cbn [negb] in Hrun; [|by inv_ret Hrun].
  inv_binds Hrun. by inv_ret Hrun.
Qed.

(** C9. Atomicity on failure: whenever a call of any method returns a
    non-nil error, the list is exactly as it was before the call (the
    same fields and the same store), so [Size()] and [Values()] give the
    same results after the call as before it. *)
Theorem failure_leaves_list_unchanged fuel (c : call T) l r l' :
  exec zero fuel c l = Ok (r, l') → reply_error r ≠ None →
  l' = l ∧ Size l' = Size l ∧ Values zero l' = Values zero l.
Proof.
  intros Hrun He. cut (l' = l); [by intros ->|].
  destruct c; cbn [exec] in Hrun; inv_binds Hrun; inv_ret Hrun;
    cbn [reply_error] in He; try done.
  - by eapply First_error.
  - by eapply Last_error.
  - by eapply Get_error.
  - by eapply IndexOf_ro.
  - by eapply Remove_error.
  - by eapply Swap_error.
  - by eapply Insert_error.
  - by eapply Set_error.
Qed.

(** ** The queries *)

Ltac ro_step :=
  match goal with
  | H : bind _ _ _ = Ok _ |- _ => inv_bind H
  | H : (let '(_, _) := ?x in _) _ = Ok _ |- _ => destruct x
  | H : (if ?b then _ else _) _ = Ok _ |- _ => destruct b
  | H : load _ _ = Ok _ |- _ => apply load_ro in H; subst
  | H : walk _ _ _ = Ok _ |- _ => apply walk_ro in H; subst
  | H : Values_loop _ _ _ _ _ = Ok _ |- _ => apply Values_loop_ro in H; subst
  | H : IndexOf_loop _ _ _ _ _ = Ok _ |- _ => apply IndexOf_loop_ro in H; subst
  | H : Contains_loop _ _ _ _ = Ok _ |- _ =>
      apply Contains_loop_ro in H; subst
  | H : panic _ = Ok _ |- _ => discriminate H
  | H : IsEmpty _ = Ok _ |- _ => inv_ret H
  | H : inBounds _ _ = Ok _ |- _ => inv_ret H
  | H : Size _ = Ok _ |- _ => inv_ret H
  | H : gets _ _ = Ok _ |- _ => inv_ret H
  | H : ret _ _ = Ok _ |- _ => inv_ret H
  end.

Lemma query_ro fuel (c : call T) l r l' :
  is_query c = true → exec zero fuel c l = Ok (r, l') → l' = l.
Proof.
  intros Hq Hrun.
  destruct c; try done; cbn [exec] in Hrun;
    unfold First, Last, Get, Values, IndexOf, Contains in Hrun;
    repeat ro_step; done.
Qed.

(** C10. Every query ([Size], [IsEmpty], [First], [Last], [Get],
    [Values], [IndexOf], [Contains]) leaves the list completely
    unchanged: whenever it returns, the list (fields and store) is the
    one it was called on, so [Size()] and [Values()] are the same before
    and after; and on a well-formed list, with the loops given enough
    steps, the query does return. *)
Theorem queries_leave_list_unchanged fuel (c : call T) l :
  is_query c = true →
  (∀ r l', exec zero fuel c l = Ok (r, l') →
           l' = l ∧ Size l' = Size l ∧ Values zero l' = Values zero l) ∧
  (Inv l → list_size l < Z.of_nat fuel → ∃ r, exec zero fuel c l = Ok (r, l)).
Proof.
  intros Hq. split.
  - intros r l' Hrun. apply (query_ro _ _ _ _ _ Hq) in Hrun. by subst l'.
  - intros HInv Hfuel.
    destruct (exec_Inv fuel c l HInv Hfuel) as (r & l' & Hrun & _).
    { apply Inv_Repr in HInv as [Hmax _]. by destruct c; try done; cbn; lia. }
    exists r. by rewrite <- (query_ro _ _ _ _ _ Hq Hrun) at 2.
Qed.

(** C3. The error kinds.  For every index outside [[0, size)], [Get],
    [Set] and [Swap] (in either argument) return [ErrIndexOutOfBounds],
    and so does [Remove] on a list that is not empty; on an empty list
    [First], [Last] and [IndexOf] return [ErrEmptyList], and [Remove]
    returns [ErrEmptyList] for every index, negative or huge, as it
    checks emptiness before bounds; [Get(0)] on an empty list returns the
    zero value with [ErrIndexOutOfBounds].  The list is left as it was. *)
Theorem error_kinds fuel l :
  (∀ index v j,
     ¬ in_range l index →
     Get zero index l = Ok ((zero, Some ErrIndexOutOfBounds), l) ∧
     Set_ index v l = Ok (Some ErrIndexOutOfBounds, l) ∧
     Swap fuel index j l = Ok (Some ErrIndexOutOfBounds, l) ∧
     Swap fuel j index l = Ok (Some ErrIndexOutOfBounds, l) ∧
     (list_size l ≠ 0 → Remove index l = Ok (Some ErrIndexOutOfBounds, l))) ∧
  (list_size l = 0 →
     First zero l = Ok ((zero, Some ErrEmptyList), l) ∧
     Last zero l = Ok ((zero, Some ErrEmptyList), l) ∧
     (∀ v, IndexOf fuel v l = Ok ((-1, Some ErrEmptyList), l)) ∧
     (∀ index, Remove index l = Ok (Some ErrEmptyList, l)) ∧
     Get zero 0 l = Ok ((zero, Some ErrIndexOutOfBounds), l)).
Proof.
  split.
  - intros index v j Hout.
    split; [by apply Get_out_of_range|].
    split; [by apply Set_out_of_range|].
    split; [apply Swap_out_of_range; by left|].
    split; [apply Swap_out_of_range; by right|].
    intros Hnz. by apply Remove_out_of_range.
  - intros Hz.
    split; [by apply First_empty|]. split; [by apply Last_empty|].
    split; [intros v; by apply IndexOf_empty|].
    split; [intros index; by apply Remove_empty|].
    apply Get_out_of_range. unfold in_range. lia.
Qed.

(** ** The invariant along runs *)

Lemma grows_nonneg (c : call T) : 0 ≤ grows c.
Proof. destruct c; simpl; lia. Qed.

Lemma total_growth_nonneg (cs : list (call T)) : 0 ≤ total_growth cs.
Proof.
  induction cs as [|c cs IH]; simpl; [done|].
  pose proof (grows_nonneg c). lia.
Qed.

Lemma run_Inv fuel (cs : list (call T)) :
  ∀ l, Inv l →
  list_size l + total_growth cs < Z.of_nat fuel →
  list_size l + total_growth cs ≤ int_max →
  ∃ rs l', run zero fuel cs l = Ok (rs, l') ∧ Inv l'.
Proof.
  induction cs as [|c cs IH]; intros l HInv Hfuel Hmax; cbn [run total_growth] in *.
  - by exists [], l.
  - pose proof (grows_nonneg c). pose proof (total_growth_nonneg cs).
    destruct (exec_Inv fuel c l HInv) as (r & l1 & Hrun & HInv1 & Hsz);
      [lia..|].
    destruct (IH l1 HInv1) as (rs & l' & Hrun' & HInv'); [lia..|].
    exists (r :: rs), l'. rewrite (bind_Ok _ _ _ _ _ Hrun).
    by rewrite (bind_Ok _ _ _ _ _ Hrun').
Qed.

Lemma Inv_observe l :
  Inv l →
  structural l ∧
  ∃ vs, Values zero l = Ok (vs, l) ∧ Size l = Ok (Z.of_nat (length vs), l).
Proof.
  intros (xs & Hrep & _ & Hvals)%Inv_Values. split.
  - by eapply Repr_structural.
  - exists (xs.*2). split; [done|]. unfold Size, gets.
    by rewrite length_fmap, (Repr_length _ _ Hrep).
Qed.

Lemma New_Inv values :
  Z.of_nat (length values) ≤ int_max →
  ∃ l, New values = Ok (tt, l) ∧ Inv l ∧ Values zero l = Ok (values, l) ∧
       list_size l = Z.of_nat (length values).
Proof.
  intros Hmax. unfold New.
  assert (Repr (mkList (T:=T) ∅ None None 0) []) as Hrep by done.
  case_bool_decide as Hlen.
  - destruct (Add_Repr values _ [] Hrep) as (l & ys & Hrun & Hr & Hys);
      [simpl; lia|].
    exists l. split; [done|]. simpl in Hr.
    pose proof (Repr_length _ _ Hr) as Hsz.
    rewrite <- Hys, length_fmap in Hmax |- *.
    split; [eapply Repr_Inv; [done|lia]|].
    split; [by rewrite (Values_Repr _ _ Hr)|done].
  - destruct values; [|simpl in Hlen; lia].
    eexists. split; [reflexivity|]. split; [done|].
    split; [by rewrite (Values_Repr _ _ Hrep)|done].
Qed.

(** The invariants in the specification's words are the invariant. *)

Lemma steps_lseg h n :
  ∀ p, steps h n p = Some None → ∃ xs, lseg h p xs None ∧ length xs = n.
Proof.
  induction n as [|n IH]; intros p; simpl.
  - intros [= ->]. by exists [].
  - destruct p as [a|]; [|done].
    destruct (h !! a) as [[v r]|] eqn:Ha; [|done]. simpl.
    intros (xs & Hseg & Hlen)%IH. exists ((a, v) :: xs).
    split; [|by rewrite <- Hlen]. simpl. eauto.
Qed.

Lemma structural_Inv l :
  0 ≤ list_size l ≤ int_max → structural l → Inv l.
Proof.
  intros [H0 Hmax] (Hzero & Hnil & Hsteps & Hlast & _).
  apply steps_lseg in Hsteps as (xs & Hseg & Hlen).
  apply (Repr_Inv l xs); [|done].
  split; [done|]. split; [|lia].
  destruct (decide (list_size l = 0)) as [Hz|Hnz].
  - assert (xs = []) as -> by (apply nil_length_inv; lia).
    apply Hnil, Hzero, Hz.
  - specialize (Hlast ltac:(lia)).
    rewrite (lseg_head _ _ _ Hseg) in Hlast.
    rewrite (steps_ptr _ _ _ 0 _ Hseg) in Hlast by (simpl; lia).
    injection Hlast as <-. rewrite last_ptr. simpl. f_equal. lia.
Qed.

Lemma Inv_structural l :
  Inv l ↔ 0 ≤ list_size l ≤ int_max ∧ structural l.
Proof.
  split.
  - intros HInv. pose proof HInv as (Hmax & xs & Hrep)%Inv_Repr.
    pose proof (Repr_length _ _ Hrep). split; [lia|].
    by eapply Repr_structural.
  - intros [Hrange Hs]. by apply structural_Inv.
Qed.

(** C2. Every operation preserves the structural invariant.  The
    invariant [Inv] is the one of the data model: [size == 0] iff
    [first] is nil iff [last] is nil; [size] links from [first] lead to
    nil and [size - 1] links lead to [last], whose [next] is nil (with
    [size] a non-negative [int]).  [New] builds a list that has it; every
    call of every method on a list that has it returns and leaves a
    list that has it; and after [New] and any sequence of calls (the
    list never holding more than the largest [int] of nodes), the list
    has it and [Size()] is the number of elements [Values()] returns. *)
Theorem invariant_preserved :
  (∀ l, Inv l ↔ 0 ≤ list_size l ≤ int_max ∧ structural l) ∧
  (∀ values, Z.of_nat (length values) ≤ int_max →
     ∃ l, New values = Ok (tt, l) ∧ Inv l) ∧
  (∀ fuel (c : call T) l,
     Inv l → list_size l < Z.of_nat fuel → list_size l + grows c ≤ int_max →
     ∃ r l', exec zero fuel c l = Ok (r, l') ∧ Inv l') ∧
  (∀ fuel values (cs : list (call T)),
     Z.of_nat (length values) + total_growth cs < Z.of_nat fuel →
     Z.of_nat (length values) + total_growth cs ≤ int_max →
     ∃ l rs l' vs,
       New values = Ok (tt, l) ∧ run zero fuel cs l = Ok (rs, l') ∧
       Inv l' ∧ Values zero l' = Ok (vs, l') ∧
       Size l' = Ok (Z.of_nat (length vs), l')).
Proof.
  split; [|split; [|split]].
  - apply Inv_structural.
  - intros values Hmax.
    destruct (New_Inv values Hmax) as (l & Hrun & HInv & _). eauto.
  - intros fuel c l HInv Hfuel Hmax.
    destruct (exec_Inv fuel c l HInv Hfuel Hmax) as (r & l' & Hrun & HInv' & _).
    eauto.
  - intros fuel values cs Hfuel Hmax.
    pose proof (total_growth_nonneg cs) as Hnn.
    destruct (New_Inv values ltac:(lia)) as (l & Hnew & HInv & _ & Hsz).
    destruct (run_Inv fuel cs l HInv) as (rs & l' & Hrun & HInv'); [lia..|].
    destruct (Inv_observe l' HInv') as (_ & vs & Hvs & Hsize).
    exists l, rs, l', vs. done.
Qed.

(** ** The mutators on a well-formed list *)

Lemma Last_Repr_last l xs v :
  Repr l xs → last (xs.*2) = Some v →
  list_last l ≠ None ∧ Last zero l = Ok ((v, None), l).
Proof.
  intros Hrep Hlast. destruct xs as [|[a w] xs _] using rev_ind; [done|].
  rewrite fmap_app in Hlast. simpl in Hlast. rewrite last_snoc in Hlast.
  injection Hlast as ->. split; [|by eapply Last_Repr].
  destruct Hrep as (_ & -> & _). rewrite fmap_app. simpl.
  by rewrite last_snoc.
Qed.

Lemma Prepend_Inv values l old :
  Inv l → Values zero l = Ok (old, l) →
  list_size l + Z.of_nat (length values) ≤ int_max →
  ∃ l', Prepend values l = Ok (tt, l') ∧ Inv l' ∧
        Values zero l' = Ok (values ++ old, l') ∧
        list_size l' = list_size l + Z.of_nat (length values) ∧
        (∀ v, last (values ++ old) = Some v →
              list_last l' ≠ None ∧ Last zero l' = Ok ((v, None), l')).
Proof.
  intros (xs & Hrep & Hmax & Hvals)%Inv_Values Hold Hgrow.
  rewrite Hvals in Hold. injection Hold as <-.
  destruct (Prepend_Repr values l xs Hrep Hgrow) as (l' & ys & Hrun & Hr & Hys).
  pose proof (Repr_length _ _ Hrep) as Hsz.
  pose proof (Repr_length _ _ Hr) as Hsz'. rewrite length_app in Hsz'.
  subst values. rewrite length_fmap in *.
  exists l'. split; [done|]. split; [eapply Repr_Inv; [done|lia]|].
  split; [by rewrite (Values_Repr _ _ Hr), fmap_app|].
  split; [lia|]. intros v Hv. apply (Last_Repr_last _ _ _ Hr).
  by rewrite fmap_app.
Qed.

(** C5. [Prepend(values...)] on a well-formed list returns; the
    contents are then the arguments in the order they were passed,
    followed by the prior contents; the size grew by their number; and
    whenever the result is not empty (in particular when the list was
    empty and arguments were given) [last] is set, to the node of the
    last element. *)
Theorem Prepend_spec values l old :
  Inv l → Values zero l = Ok (old, l) →
  list_size l + Z.of_nat (length values) ≤ int_max →
  ∃ l', Prepend values l = Ok (tt, l') ∧ Inv l' ∧
        Values zero l' = Ok (values ++ old, l') ∧
        list_size l' = list_size l + Z.of_nat (length values) ∧
        (∀ v, last (values ++ old) = Some v →
              list_last l' ≠ None ∧ Last zero l' = Ok ((v, None), l')).
Proof. apply Prepend_Inv. Qed.

Lemma Remove_Inv l old index :
  Inv l → Values zero l = Ok (old, l) → in_range l index →
  ∃ l', Remove index l = Ok (None, l') ∧ Inv l' ∧ structural l' ∧
        Values zero l' = Ok (delete (Z.to_nat index) old, l') ∧
        Size l' = Ok (list_size l - 1, l').
Proof.
  intros (xs & Hrep & Hmax & Hvals)%Inv_Values Hold Hin.
  rewrite Hvals in Hold. injection Hold as <-.
  destruct (in_range_lookup _ _ _ Hrep Hin) as (a & v & Hx & Hi).
  destruct (Remove_Repr _ _ _ _ _ Hrep Hmax Hx) as (l' & Hrun & Hr).
  rewrite Hi in Hrun.
  pose proof (Repr_length _ _ Hrep) as Hsz.
  pose proof (Repr_length _ _ Hr) as Hsz'.
  rewrite length_delete in Hsz' by eauto.
  apply lookup_lt_Some in Hx as Hlt.
  exists l'. split; [done|]. split; [eapply Repr_Inv; [done|lia]|].
  split; [by eapply Repr_structural|].
  split; [by rewrite (Values_Repr _ _ Hr), list_fmap_delete|].
  unfold Size, gets. do 2 f_equal. lia.
Qed.

(** C7. [Swap(i, j)] on a well-formed list: with both indices in
    [[0, size)] it returns nil and the contents are the old ones with
    the values at [i] and [j] exchanged, every other position as it was;
    [Swap(i, i)] with [i] in bounds returns nil and changes nothing; and
    if either index is out of bounds, also when [i == j], it returns
    [ErrIndexOutOfBounds] and changes nothing. *)
Theorem Swap_spec fuel l old i j :
  Inv l → Values zero l = Ok (old, l) → list_size l < Z.of_nat fuel →
  (in_range l i → in_range l j →
   ∃ l' vi vj,
     old !! Z.to_nat i = Some vi ∧ old !! Z.to_nat j = Some vj ∧
     Swap fuel i j l = Ok (None, l') ∧ Inv l' ∧
     Values zero l'
     = Ok (<[Z.to_nat j := vi]> (<[Z.to_nat i := vj]> old), l') ∧
     list_size l' = list_size l) ∧
  (in_range l i → Swap fuel i i l = Ok (None, l)) ∧
  (¬ in_range l i ∨ ¬ in_range l j →
   Swap fuel i j l = Ok (Some ErrIndexOutOfBounds, l)).
Proof.
  intros HInv Hold Hfuel. split; [|split].
  - intros Hi Hj.
    pose proof HInv as (xs & Hrep & Hmax & Hvals)%Inv_Values.
    rewrite Hvals in Hold. injection Hold as <-.
    pose proof (Repr_length _ _ Hrep) as Hsz.
    destruct (in_range_lookup _ _ _ Hrep Hi) as (ai & vi & Hxi & Hzi).
    destruct (in_range_lookup _ _ _ Hrep Hj) as (aj & vj & Hxj & Hzj).
    assert (xs.*2 !! Z.to_nat i = Some vi) as Hvi
      by (by rewrite list_lookup_fmap, Hxi).
    assert (xs.*2 !! Z.to_nat j = Some vj) as Hvj
      by (by rewrite list_lookup_fmap, Hxj).
    destruct (decide (i = j)) as [<-|Hij].
    + exists l, vi, vi. rewrite Hvi in Hvj. injection Hvj as <-.
      split; [done|]. split; [done|]. split; [by apply Swap_same|].
      split; [done|]. split; [|done].
      by rewrite !(list_insert_id (xs.*2)) by done.
    + destruct (Swap_Repr l xs _ _ ai vi aj vj fuel Hrep Hxi Hxj)
        as (l' & Hrun & Hr); [lia..|].
      rewrite Hzi, Hzj in Hrun.
      pose proof (Repr_length _ _ Hr) as Hsz'.
      rewrite !length_insert in Hsz'.
      exists l', vi, vj. split; [done|]. split; [done|]. split; [done|].
      split; [eapply Repr_Inv; [done|lia]|]. split; [|lia].
      by rewrite (Values_Repr _ _ Hr), !list_fmap_insert.
  - apply Swap_same.
  - apply Swap_out_of_range.
Qed.

(** C8. [IndexOf(v)] on a well-formed list returns, leaving the list as
    it was: the smallest position whose element equals [v], with a nil
    error, when there is one; [ErrEmptyList] when the list has no
    element; and [ErrElementNotFound], with the invalid index [-1],
    exactly when the list is not empty and no element equals [v]. *)
Theorem IndexOf_spec fuel l old v :
  Inv l → Values zero l = Ok (old, l) → list_size l < Z.of_nat fuel →
  ∃ z e,
    IndexOf fuel v l = Ok ((z, e), l) ∧
    (∀ k, old !! k = Some v → (∀ j, (j < k)%nat → old !! j ≠ Some v) →
          z = Z.of_nat k ∧ e = None) ∧
    (list_size l = 0 → z = -1 ∧ e = Some ErrEmptyList) ∧
    (e = Some ErrElementNotFound ↔ list_size l ≠ 0 ∧ v ∉ old) ∧
    (e = Some ErrElementNotFound → z = -1).
Proof.
  intros (xs & Hrep & Hmax & Hvals)%Inv_Values Hold Hfuel.
  rewrite Hvals in Hold. injection Hold as <-.
  pose proof (Repr_length _ _ Hrep) as Hsz.
  destruct (decide (xs = [])) as [->|Hne].
  - exists (-1), (Some ErrEmptyList).
    split; [by apply IndexOf_empty|]. split; [by intros k ?|].
    split; [done|]. split; [|done]. split; [done|]. by intros [? _].
  - assert (list_size l ≠ 0) as Hnz by (destruct xs; simpl in *; [done|lia]).
    rewrite (IndexOf_Repr _ _ fuel v Hrep Hmax ltac:(lia) Hne).
    destruct (list_find (λ x, x = v) (xs.*2)) as [[k y]|] eqn:Hfind.
    + apply list_find_Some in Hfind as (Hk & -> & Hmin).
      exists (Z.of_nat k), None. split; [done|]. split; [|split; [|split]].
      * intros k' Hk' Hmin'.
        destruct (Nat.lt_trichotomy k k') as [Hlt|[->|Hlt]]; [|done|].
        -- by destruct (Hmin' _ Hlt).
        -- by destruct (Hmin _ _ Hk' Hlt).
      * done.
      * split; [done|]. intros [_ Hnot]. destruct Hnot.
        by eapply list_elem_of_lookup_2.
      * done.
    + apply list_find_None in Hfind.
      exists (-1), (Some ErrElementNotFound).
      split; [done|]. split; [|split; [|split]].
      * intros k Hk _. apply list_elem_of_lookup_2 in Hk.
        rewrite Forall_forall in Hfind. by destruct (Hfind _ Hk).
      * done.
      * split; [|done]. intros _. split; [done|]. intros Hin.
        rewrite Forall_forall in Hfind. by destruct (Hfind _ Hin).
      * done.
Qed.

Lemma Insert_Inv values l old index :
  Inv l → Values zero l = Ok (old, l) →
  list_size l + Z.of_nat (length values) ≤ int_max →
  0 ≤ index ≤ list_size l →
  ∃ l', Insert index values l = Ok (None, l') ∧ Inv l' ∧
        Values zero l'
        = Ok (take (Z.to_nat index) old ++ values
              ++ drop (Z.to_nat index) old, l') ∧
        list_size l' = list_size l + Z.of_nat (length values).
Proof.
  intros (xs & Hrep & Hmax & Hvals)%Inv_Values Hold Hgrow Hin.
  rewrite Hvals in Hold. injection Hold as <-.
  pose proof (Repr_length _ _ Hrep) as Hsz.
  destruct (Insert_Repr l xs (Z.to_nat index) values Hrep ltac:(lia) Hgrow)
    as (l' & ys & Hrun & Hr & Hys).
  rewrite Z2Nat.id in Hrun by lia.
  pose proof (Repr_length _ _ Hr) as Hsz'.
  rewrite !length_app, length_take, length_drop in Hsz'.
  exists l'. split; [done|]. subst values. rewrite length_fmap in *.
  split; [eapply Repr_Inv; [done|lia]|].
  split; [|lia].
  by rewrite (Values_Repr _ _ Hr), !fmap_app, fmap_take, fmap_drop.
Qed.

(** C4. [Insert(index, values...)] on a well-formed list.  For every
    index of [[0, size]] it returns nil, the contents are the old prefix
    [[0, index)], then the values in argument order, then the old
    suffix, and the size grew by exactly the number of values (also for
    [index == 0] on the empty list); for any other index it returns
    [ErrIndexOutOfBounds] and leaves the list as it was.  [Insert(0,
    values...)] gives the contents and size that [Prepend(values...)]
    gives (and the very same list when the list is not empty), and
    [Insert(size, values...)] is [Append(values...)]. *)
Theorem Insert_spec values l old :
  Inv l → Values zero l = Ok (old, l) →
  list_size l + Z.of_nat (length values) ≤ int_max →
  (∀ index, 0 ≤ index ≤ list_size l →
     ∃ l', Insert index values l = Ok (None, l') ∧ Inv l' ∧
           Values zero l'
           = Ok (take (Z.to_nat index) old ++ values
                 ++ drop (Z.to_nat index) old, l') ∧
           list_size l' = list_size l + Z.of_nat (length values)) ∧
  (∀ index, ¬ (0 ≤ index ≤ list_size l) →
     Insert index values l = Ok (Some ErrIndexOutOfBounds, l)) ∧
  (∃ l1 l2,
     Insert 0 values l = Ok (None, l1) ∧ Prepend values l = Ok (tt, l2) ∧
     Values zero l1 = Ok (values ++ old, l1) ∧
     Values zero l2 = Ok (values ++ old, l2) ∧
     list_size l1 = list_size l2 ∧
     (list_size l ≠ 0 → l1 = l2)) ∧
  (∃ l1,
     Insert (list_size l) values l = Ok (None, l1) ∧
     Append values l = Ok (tt, l1) ∧
     Values zero l1 = Ok (old ++ values, l1)).
Proof.
  intros HInv Hold Hgrow.
  pose proof HInv as (xs & Hrep & Hmax & Hvals)%Inv_Values.
  pose proof (Repr_length _ _ Hrep) as Hsz.
  pose proof Hold as Hold'. rewrite Hvals in Hold'. injection Hold' as <-.
  split; [|split; [|split]].
  - intros index Hin. by apply Insert_Inv.
  - intros index Hout. apply Insert_out_of_range; unfold in_range; lia.
  - destruct (Insert_Inv values l _ 0 HInv Hold Hgrow ltac:(lia))
      as (l1 & Hrun1 & _ & Hv1 & Hs1).
    destruct (Prepend_Inv values l _ HInv Hold Hgrow)
      as (l2 & Hrun2 & _ & Hv2 & Hs2 & _).
    exists l1, l2. rewrite take_0, drop_0 in Hv1.
    split; [done|]. split; [done|]. split; [done|]. split; [done|].
    split; [lia|]. intros Hnz.
    rewrite Insert_at_zero in Hrun1 by lia.
    rewrite (bind_Ok _ _ _ _ _ Hrun2) in Hrun1. by injection Hrun1.
  - destruct (Insert_Inv values l _ (list_size l) HInv Hold Hgrow ltac:(lia))
      as (l1 & Hrun1 & _ & Hv1 & Hs1).
    exists l1. split; [done|].
    rewrite Hsz, Nat2Z.id in Hv1.
    rewrite <- (length_fmap snd xs) in Hv1.
    rewrite firstn_all, drop_all, app_nil_r in Hv1. split; [|done].
    rewrite Insert_at_size in Hrun1. inv_bind Hrun1.
    injection Hrun1 as <-. by destruct x.
Qed.

(** What [Contains] computes on a well-formed list: true iff there are
    no arguments, or the list has at least as many elements as there are
    arguments (duplicates counted) and every argument is in the list. *)
Lemma Contains_Inv fuel values l old :
  Inv l → Values zero l = Ok (old, l) → list_size l < Z.of_nat fuel →
  ∃ b, Contains fuel values l = Ok (b, l) ∧
       (b = true ↔
        values = [] ∨
        (Z.of_nat (length values) ≤ list_size l ∧ ∀ v, v ∈ values → v ∈ old)).
Proof.
  intros (xs & Hrep & Hmax & Hvals)%Inv_Values Hold Hfuel.
  rewrite Hvals in Hold. injection Hold as <-.
  pose proof (Repr_length _ _ Hrep) as Hsz.
  destruct (Contains_Repr l xs fuel values Hrep ltac:(lia)) as (b & Hrun & Hb).
  exists b. split; [done|]. rewrite Hb, Hsz.
  split; (intros [?|[? ?]]; [by left|right; split; [lia|done]]).
Qed.

(** The parts of the specification of [Contains] that hold on the code:
    no arguments give true; true is returned only when every argument is
    in the list; a list smaller than the number of distinct arguments
    gives false; and on arguments without duplicates the result is true
    iff every argument is in the list. *)
Lemma Contains_without_duplicates fuel values l old :
  Inv l → Values zero l = Ok (old, l) → list_size l < Z.of_nat fuel →
  ∃ b, Contains fuel values l = Ok (b, l) ∧
       (values = [] → b = true) ∧
       (b = true → ∀ v, v ∈ values → v ∈ old) ∧
       (list_size l < Z.of_nat (length (remove_dups values)) → b = false) ∧
       (NoDup values → (b = true ↔ ∀ v, v ∈ values → v ∈ old)).
Proof.
  intros HInv Hold Hfuel.
  destruct (Contains_Inv fuel values l old HInv Hold Hfuel) as (b & Hrun & Hb).
  pose proof HInv as (xs & Hrep & _ & Hvals)%Inv_Values.
  rewrite Hvals in Hold. injection Hold as <-.
  pose proof (Repr_length _ _ Hrep) as Hsz.
  assert (b = true → ∀ v, v ∈ values → v ∈ xs.*2) as Hsound.
  { intros Htrue. apply Hb in Htrue as [->|[_ Hall]]; [|done].
    intros v Hv. by apply elem_of_nil in Hv. }
  assert (∀ vs : list T, NoDup vs → (∀ v, v ∈ vs → v ∈ xs.*2) →
          Z.of_nat (length vs) ≤ list_size l) as Hcount.
  { intros vs Hnd Hall.
    pose proof (submseteq_length _ _ (NoDup_submseteq _ _ Hnd Hall)) as Hle.
    rewrite length_fmap in Hle. lia. }
  exists b. split; [done|]. split; [|split; [done|split]].
  - intros ->. apply Hb. by left.
  - intros Hlt. destruct b; [|done].
    specialize (Hcount (remove_dups values) (NoDup_remove_dups _)).
    assert (Z.of_nat (length (remove_dups values)) ≤ list_size l); [|lia].
    apply Hcount. intros v Hv.
    apply (proj1 (elem_of_remove_dups _ _)) in Hv. by apply Hsound.
  - intros Hnd. split; [done|]. intros Hall. apply Hb. right.
    split; [by apply Hcount|done].
Qed.

(** ** Further properties of the methods *)

Lemma Add_Inv values l old :
  Inv l → Values zero l = Ok (old, l) →
  list_size l + Z.of_nat (length values) ≤ int_max →
  ∃ l', Add values l = Ok (tt, l') ∧ Inv l' ∧
        Values zero l' = Ok (old ++ values, l') ∧
        list_size l' = list_size l + Z.of_nat (length values).
Proof.
  intros (xs & Hrep & Hmax & Hvals)%Inv_Values Hold Hgrow.
  rewrite Hvals in Hold. injection Hold as <-.
  destruct (Add_Repr values l xs Hrep Hgrow) as (l' & ys & Hrun & Hr & Hys).
  pose proof (Repr_length _ _ Hrep) as Hsz.
  pose proof (Repr_length _ _ Hr) as Hsz'. rewrite length_app in Hsz'.
  subst values. rewrite length_fmap in *.
  exists l'. split; [done|]. split; [eapply Repr_Inv; [done|lia]|].
  split; [by rewrite (Values_Repr _ _ Hr), fmap_app|lia].
Qed.

Lemma Get_Inv l old n v :
  Inv l → Values zero l = Ok (old, l) → old !! n = Some v →
  Get zero (Z.of_nat n) l = Ok ((v, None), l).
Proof.
  intros (xs & Hrep & Hmax & Hvals)%Inv_Values Hold Hn.
  rewrite Hvals in Hold. injection Hold as <-.
  rewrite list_lookup_fmap in Hn.
  destruct (xs !! n) as [[a w]|] eqn:Hx; [|done]. injection Hn as ->.
  by eapply Get_Repr.
Qed.

Lemma Inv_size_length l old :
  Inv l → Values zero l = Ok (old, l) → list_size l = Z.of_nat (length old).
Proof.
  intros (xs & Hrep & Hmax & Hvals)%Inv_Values Hold.
  rewrite Hvals in Hold. injection Hold as <-.
  by rewrite length_fmap, (Repr_length _ _ Hrep).
Qed.

Lemma Set_Inv l old index v :
  Inv l → Values zero l = Ok (old, l) → in_range l index →
  ∃ l', Set_ index v l = Ok (None, l') ∧ Inv l' ∧
        Values zero l' = Ok (<[Z.to_nat index := v]> old, l') ∧
        list_size l' = list_size l.
Proof.
  intros (xs & Hrep & Hmax & Hvals)%Inv_Values Hold Hin.
  rewrite Hvals in Hold. injection Hold as <-.
  destruct (in_range_lookup _ _ _ Hrep Hin) as (a & w & Hx & Hi).
  destruct (Set_Repr _ _ _ _ _ v Hrep Hx) as (l' & Hrun & Hr).
  rewrite Hi in Hrun.
  pose proof (Repr_length _ _ Hrep) as Hsz.
  pose proof (Repr_length _ _ Hr) as Hsz'. rewrite length_insert in Hsz'.
  exists l'. split; [done|]. split; [eapply Repr_Inv; [done|lia]|].
  split; [|lia]. by rewrite (Values_Repr _ _ Hr), list_fmap_insert.
Qed.

Lemma First_Inv l old :
  Inv l → Values zero l = Ok (old, l) →
  First zero l = Ok (match old with
                     | [] => (zero, Some ErrEmptyList)
                     | v :: _ => (v, None)
                     end, l).
Proof.
  intros (xs & Hrep & Hmax & Hvals)%Inv_Values Hold.
  rewrite Hvals in Hold. injection Hold as <-.
  destruct xs as [|[a v] xs]; simpl.
  - apply First_empty. by rewrite (Repr_length _ _ Hrep).
  - by eapply First_Repr.
Qed.

Lemma Last_Inv l old :
  Inv l → Values zero l = Ok (old, l) →
  Last zero l = Ok (match last old with
                    | None => (zero, Some ErrEmptyList)
                    | Some v => (v, None)
                    end, l).
Proof.
  intros (xs & Hrep & Hmax & Hvals)%Inv_Values Hold.
  rewrite Hvals in Hold. injection Hold as <-.
  destruct (last (xs.*2)) as [v|] eqn:Hl.
  - by apply (Last_Repr_last _ _ _ Hrep).
  - apply last_None, fmap_nil_inv in Hl. subst xs.
    apply Last_empty. by rewrite (Repr_length _ _ Hrep).
Qed.

(** X1. Round trip of [New]: [New(values...)] builds a well-formed list
    whose [Values()] are the arguments in order, whose [Size()] is their
    number, which [IsEmpty()] iff there are none, and whose [Get(i)]
    is the [i]-th argument. *)
Theorem New_round_trip values :
  Z.of_nat (length values) ≤ int_max →
  ∃ l, New values = Ok (tt, l) ∧ Inv l ∧
       Values zero l = Ok (values, l) ∧
       Size l = Ok (Z.of_nat (length values), l) ∧
       IsEmpty l = Ok (bool_decide (values = []), l) ∧
       ∀ i v, values !! i = Some v →
              Get zero (Z.of_nat i) l = Ok ((v, None), l).
Proof.
  intros Hmax.
  destruct (New_Inv values Hmax) as (l & Hnew & HInv & Hvals & Hsz).
  exists l. split; [done|]. split; [done|]. split; [done|].
  split; [by unfold Size, gets; rewrite Hsz|]. split.
  - rewrite IsEmpty_eq, Hsz. do 2 f_equal.
    apply bool_decide_ext. destruct values; simpl; split; (done || lia).
  - intros i v Hi. by eapply Get_Inv.
Qed.

(** X2. [Add(values...)] (and its alias [Append]) on a well-formed list
    returns, keeps the list well-formed, puts the values after the prior
    contents in argument order, and grows the size by their number; the
    last argument, if any, is then what [Last()] returns. *)
Theorem Add_appends values l old :
  Inv l → Values zero l = Ok (old, l) →
  list_size l + Z.of_nat (length values) ≤ int_max →
  ∃ l', Add values l = Ok (tt, l') ∧ Append values l = Ok (tt, l') ∧
        Inv l' ∧ Values zero l' = Ok (old ++ values, l') ∧
        Size l' = Ok (list_size l + Z.of_nat (length values), l') ∧
        (∀ v, last values = Some v → Last zero l' = Ok ((v, None), l')).
Proof.
  intros HInv Hold Hgrow.
  destruct (Add_Inv values l old HInv Hold Hgrow)
    as (l' & Hrun & HInv' & Hvals & Hsz).
  exists l'. split; [done|]. split; [done|]. split; [done|].
  split; [done|]. split; [by unfold Size, gets; rewrite Hsz|].
  intros v Hv. rewrite (Last_Inv l' _ HInv' Hvals).
  by rewrite last_app, Hv.
Qed.

Lemma bind_assoc {A B C} (c : M T A) (k : A → M T B) (k' : B → M T C) l :
  bind (bind c k) k' l = bind c (λ x, bind (k x) k') l.
Proof. unfold bind. by destruct (c l) as [[x l']| |]. Qed.

Lemma bind_ext {A B} (c : M T A) (k k' : A → M T B) l :
  (∀ x l', k x l' = k' x l') → bind c k l = bind c k' l.
Proof. intros Hk. unfold bind. by destruct (c l) as [[x l']| |]. Qed.

(** X3. One variadic call of [Add] is the same as successive calls:
    [Add(a..., b...)] leaves exactly the list that [Add(a...)] followed by
    [Add(b...)] leaves, on every list. *)
Theorem Add_app (a b : list T) l :
  Add (a ++ b) l = (Add a;; Add b) l.
Proof.
  revert l. induction a as [|v a IH]; intros l; [reflexivity|].
  cbn [app Add].
  repeat (rewrite bind_assoc; apply bind_ext; intros ? ?).
  apply IH.
Qed.

Lemma Prepend_from_ext n :
  ∀ (vs vs' : list T) l,
  (∀ i, (i < n)%nat → vs !! i = vs' !! i) →
  Prepend_from n vs l = Prepend_from n vs' l.
Proof.
  induction n as [|n IH]; intros vs vs' l Hvs; [done|].
  cbn [Prepend_from]. rewrite <- (Hvs n) by lia.
  destruct (vs !! n) as [v|]; [|done].
  repeat (apply bind_ext; intros ? ?).
  apply IH. intros i Hi. apply Hvs. lia.
Qed.

Lemma Prepend_from_app (a b : list T) k :
  ∀ l, Prepend_from (length a + k) (a ++ b) l
       = (Prepend_from k b;; Prepend_from (length a) (a ++ b)) l.
Proof.
  induction k as [|k IH]; intros l.
  - by rewrite Nat.add_0_r.
  - rewrite Nat.add_succ_r. cbn [Prepend_from].
    rewrite lookup_app_r, Nat.add_comm, Nat.add_sub by lia.
    destruct (b !! k) as [v|]; [|done].
    repeat (rewrite bind_assoc; apply bind_ext; intros ? ?).
    rewrite Nat.add_comm. apply IH.
Qed.

(** X4. One variadic call of [Prepend] is the same as successive calls,
    the later arguments first: [Prepend(a..., b...)] leaves exactly the
    list that [Prepend(b...)] followed by [Prepend(a...)] leaves, on
    every list. *)
Theorem Prepend_app (a b : list T) l :
  Prepend (a ++ b) l = (Prepend b;; Prepend a) l.
Proof.
  unfold Prepend. rewrite length_app, Prepend_from_app.
  apply bind_ext. intros _ l'. apply Prepend_from_ext.
  intros i Hi. by rewrite lookup_app_l.
Qed.

(** X5. [Get] agrees with [Values]: on a well-formed list, [Get(index)]
    returns a value with a nil error exactly when [index] is a position
    of [Values()], and the value is the one at that position; the list
    is left as it was. *)
Theorem Get_agrees_with_Values l old index v :
  Inv l → Values zero l = Ok (old, l) →
  (Get zero index l = Ok ((v, None), l) ↔
   0 ≤ index ∧ old !! Z.to_nat index = Some v).
Proof.
  intros HInv Hold. pose proof (Inv_size_length _ _ HInv Hold) as Hsz.
  destruct (decide (in_range l index)) as [[H0 Hlt]|Hout].
  - destruct (lookup_lt_is_Some_2 old (Z.to_nat index) ltac:(lia)) as [w Hw].
    pose proof (Get_Inv l old _ w HInv Hold Hw) as Hget.
    rewrite Z2Nat.id in Hget by lia. rewrite Hget, Hw. split.
    + by intros [= ->].
    + by intros [_ [= ->]].
  - rewrite (Get_out_of_range _ _ Hout). split; [done|].
    intros [H0 Hlook%lookup_lt_Some]. destruct Hout. unfold in_range. lia.
Qed.

(** X6. [Set] then [Get]: on a well-formed list, [Set(index, v)] with
    [index] in [[0, size)] returns nil and keeps the list well-formed and
    its size; afterwards [Get(index)] returns [v], every other position
    holds what it held, and [Values()] differs at [index] only. *)
Theorem Set_then_Get l old index v :
  Inv l → Values zero l = Ok (old, l) → in_range l index →
  ∃ l', Set_ index v l = Ok (None, l') ∧ Inv l' ∧
        Values zero l' = Ok (<[Z.to_nat index := v]> old, l') ∧
        Size l' = Ok (list_size l, l') ∧
        Get zero index l' = Ok ((v, None), l') ∧
        (∀ j w, j ≠ Z.to_nat index → old !! j = Some w →
                Get zero (Z.of_nat j) l' = Ok ((w, None), l')).
Proof.
  intros HInv Hold Hin. pose proof (Inv_size_length _ _ HInv Hold) as Hsz.
  destruct (Set_Inv l old index v HInv Hold Hin)
    as (l' & Hrun & HInv' & Hvals & Hsz').
  destruct Hin as [H0 Hlt].
  exists l'. do 3 (split; [done|]).
  split; [by unfold Size, gets; rewrite Hsz'|]. split.
  - rewrite <- (Z2Nat.id index) at 1 by lia.
    apply (Get_Inv l' _ _ v HInv' Hvals).
    apply list_lookup_insert_eq. lia.
  - intros j w Hj Hw. apply (Get_Inv l' _ _ w HInv' Hvals).
    by rewrite list_lookup_insert_ne.
Qed.

(** X7. The ends agree with [Values]: on a well-formed list, [First()]
    returns the first element of [Values()] and [Last()] the last one,
    with a nil error, and both return [ErrEmptyList] (with the zero
    value) when [Values()] is empty; [IsEmpty()] says whether it is. *)
Theorem First_Last_agree_with_Values l old :
  Inv l → Values zero l = Ok (old, l) →
  First zero l = Ok (match old with
                     | [] => (zero, Some ErrEmptyList)
                     | v :: _ => (v, None)
                     end, l) ∧
  Last zero l = Ok (match last old with
                    | None => (zero, Some ErrEmptyList)
                    | Some v => (v, None)
                    end, l) ∧
  IsEmpty l = Ok (bool_decide (old = []), l).
Proof.
  intros HInv Hold. split; [by apply First_Inv|]. split; [by apply Last_Inv|].
  rewrite IsEmpty_eq, (Inv_size_length _ _ HInv Hold). do 2 f_equal.
  apply bool_decide_ext. destruct old; simpl; split; (done || lia).
Qed.

(** X8. [Clear] makes any list reusable: on every list, well-formed or
    not, [Clear()] followed by [Add(values...)] returns and leaves a
    well-formed list whose [Values()] are exactly the values added; with
    no values the list is empty. *)
Theorem Clear_then_Add values l :
  Z.of_nat (length values) ≤ int_max →
  ∃ l', (Clear;; Add values) l = Ok (tt, l') ∧ Inv l' ∧
        Values zero l' = Ok (values, l') ∧
        Size l' = Ok (Z.of_nat (length values), l') ∧
        IsEmpty l' = Ok (bool_decide (values = []), l').
Proof.
  intros Hmax.
  set (l0 := mkList (nodes l) None None 0).
  assert (Repr l0 []) as Hrep by done.
  destruct (Add_Repr values l0 [] Hrep) as (l' & ys & Hrun & Hr & Hys);
    [simpl; lia|].
  simpl in Hr. pose proof (Repr_length _ _ Hr) as Hsz.
  subst values. rewrite length_fmap in *.
  exists l'. split; [done|]. split; [eapply Repr_Inv; [done|lia]|].
  split; [by apply Values_Repr|].
  split; [by unfold Size, gets; rewrite Hsz|].
  rewrite IsEmpty_eq, Hsz. do 2 f_equal.
  apply bool_decide_ext. destruct ys; simpl; split; (done || lia).
Qed.

(** X9. What [Contains] computes: on a well-formed list,
    [Contains(values...)] returns true exactly when there are no
    arguments, or the list has at least [len(values)] elements
    (duplicate arguments counted) and every argument is an element; the
    list is left as it was. *)
Theorem Contains_exact fuel values l old :
  Inv l → Values zero l = Ok (old, l) → list_size l < Z.of_nat fuel →
  ∃ b, Contains fuel values l = Ok (b, l) ∧
       (b = true ↔
        values = [] ∨
        (Z.of_nat (length values) ≤ list_size l ∧ ∀ v, v ∈ values → v ∈ old)).
Proof. apply Contains_Inv. Qed.


(** X11. [IndexOf], [Get] and [Contains] agree: on a well-formed list,
    the index that [IndexOf(v)] returns with a nil error is one at which
    [Get] returns [v]; and [Contains(v)] is true exactly when
    [IndexOf(v)] returns with a nil error. *)
Theorem IndexOf_Get_Contains fuel l old v :
  Inv l → Values zero l = Ok (old, l) → list_size l < Z.of_nat fuel →
  (∀ z l', IndexOf fuel v l = Ok ((z, None), l') →
           Get zero z l = Ok ((v, None), l)) ∧
  (Contains fuel [v] l = Ok (true, l) ↔
   ∃ z, IndexOf fuel v l = Ok ((z, None), l)).
Proof.
  intros HInv Hold Hfuel.
  pose proof HInv as (xs & Hrep & Hmax & Hvals)%Inv_Values.
  pose proof Hold as Hold'. rewrite Hvals in Hold'. injection Hold' as <-.
  pose proof (Repr_length _ _ Hrep) as Hsz.
  destruct (Contains_Inv fuel [v] l _ HInv Hold Hfuel) as (b & Hc & Hb).
  rewrite Hc.
  destruct (decide (xs = [])) as [->|Hne].
  - rewrite (IndexOf_empty fuel v l Hsz). split; [done|].
    split; [|by intros [z ?]]. intros [= ->].
    destruct (proj1 Hb eq_refl) as [?|[Hlen _]]; [done|]. simpl in *. lia.
  - rewrite (IndexOf_Repr _ _ fuel v Hrep Hmax ltac:(lia) Hne).
    destruct (list_find (λ x, x = v) (xs.*2)) as [[k y]|] eqn:Hfind.
    + apply list_find_Some in Hfind as (Hk & -> & _). split.
      * intros z l' [= <- _]. by eapply Get_Inv.
      * split; [by eauto|]. intros _. do 2 f_equal. apply Hb. right.
        split.
        -- destruct xs; simpl in *; [done|lia].
        -- intros w ->%list_elem_of_singleton.
           by eapply list_elem_of_lookup_2.
    + apply list_find_None in Hfind. rewrite Forall_forall in Hfind.
      split; [done|]. split; [|by intros [z ?]]. intros [= ->].
      destruct (proj1 Hb eq_refl) as [?|[_ Hall]]; [done|].
      destruct (Hfind v); [|done]. apply Hall. by left.
Qed.

Lemma Remove_Inv_size l old index l' :
  Inv l → Values zero l = Ok (old, l) → in_range l index →
  Remove index l = Ok (None, l') →
  Inv l' ∧ Values zero l' = Ok (delete (Z.to_nat index) old, l') ∧
  list_size l' = list_size l - 1.
Proof.
  intros HInv Hold Hin Hrun.
  destruct (Remove_Inv l old index HInv Hold Hin)
    as (l1 & Hrun1 & HInv1 & _ & Hvals1 & Hsz1).
  rewrite Hrun in Hrun1. injection Hrun1 as <-.
  split; [done|]. split; [done|]. by injection Hsz1.
Qed.

(** X12. [Remove] then [Insert] restores the list: on a well-formed
    list, removing the element at a position and inserting the removed
    value at the same position gives back the same contents and size. *)
Theorem Remove_then_Insert l old index v :
  Inv l → Values zero l = Ok (old, l) →
  0 ≤ index → old !! Z.to_nat index = Some v →
  ∃ l1 l2, Remove index l = Ok (None, l1) ∧
           Insert index [v] l1 = Ok (None, l2) ∧
           Inv l2 ∧ Values zero l2 = Ok (old, l2) ∧
           Size l2 = Ok (list_size l, l2).
Proof.
  intros HInv Hold H0 Hv.
  pose proof (Inv_size_length _ _ HInv Hold) as Hsz.
  pose proof (proj1 (proj1 (Inv_Repr l) HInv)) as Hmax.
  apply lookup_lt_Some in Hv as Hlt.
  assert (in_range l index) as Hin by (unfold in_range; lia).
  destruct (Remove_Inv l old index HInv Hold Hin) as (l1 & Hrun1 & _).
  destruct (Remove_Inv_size _ _ _ _ HInv Hold Hin Hrun1)
    as (HInv1 & Hvals1 & Hsz1).
  destruct (Insert_Inv [v] l1 _ index HInv1 Hvals1)
    as (l2 & Hrun2 & HInv2 & Hvals2 & Hsz2); [simpl; lia..|].
  exists l1, l2. do 3 (split; [done|]). split.
  - rewrite Hvals2. do 2 f_equal.
    rewrite delete_take_drop.
    rewrite take_app_length', drop_app_length'
      by (rewrite length_take; lia).
    by apply take_drop_middle.
  - unfold Size, gets. rewrite Hsz2, Hsz1. simpl. do 2 f_equal. lia.
Qed.

(** X13. [Insert] then [Remove] restores the list: on a well-formed
    list, inserting one value at a position of [[0, size]] and removing
    the element at that position gives back the same contents and
    size. *)
Theorem Insert_then_Remove l old index v :
  Inv l → Values zero l = Ok (old, l) →
  0 ≤ index ≤ list_size l → list_size l + 1 ≤ int_max →
  ∃ l1 l2, Insert index [v] l = Ok (None, l1) ∧
           Remove index l1 = Ok (None, l2) ∧
           Inv l2 ∧ Values zero l2 = Ok (old, l2) ∧
           Size l2 = Ok (list_size l, l2).
Proof.
  intros HInv Hold Hin Hgrow.
  pose proof (Inv_size_length _ _ HInv Hold) as Hsz.
  destruct (Insert_Inv [v] l old index HInv Hold)
    as (l1 & Hrun1 & HInv1 & Hvals1 & Hsz1); [simpl; lia..|].
  simpl in Hsz1.
  assert (in_range l1 index) as Hin1 by (unfold in_range; lia).
  destruct (Remove_Inv l1 _ index HInv1 Hvals1 Hin1) as (l2 & Hrun2 & _).
  destruct (Remove_Inv_size _ _ _ _ HInv1 Hvals1 Hin1 Hrun2)
    as (HInv2 & Hvals2 & Hsz2).
  exists l1, l2. do 3 (split; [done|]). split.
  - rewrite Hvals2. do 2 f_equal.
    replace (Z.to_nat index) with (length (take (Z.to_nat index) old)) at 1
      by (rewrite length_take; lia).
    simpl. rewrite delete_middle. apply take_drop.
  - unfold Size, gets. do 2 f_equal. lia.
Qed.

(** X16. [Insert] with no values changes nothing: on a well-formed list
    and for every index of [[0, size]], at the ends or inside,
    [Insert(index)] returns nil and leaves the very same list. *)
Theorem Insert_no_values l index :
  Inv l → 0 ≤ index ≤ list_size l → Insert index [] l = Ok (None, l).
Proof.
  intros (Hmax & xs & Hrep)%Inv_Repr Hin.
  pose proof (Repr_length _ _ Hrep) as Hsz.
  destruct (decide (index = list_size l)) as [->|Hne].
  { by rewrite Insert_at_size. }
  destruct (decide (index = 0)) as [->|Hnz].
  { by rewrite Insert_at_zero by lia. }
  destruct Hrep as (Hseg & Hlast & _).
  destruct (lookup_lt_is_Some_2 xs (pred (Z.to_nat index)) ltac:(lia))
    as [[b w] Hb].
  pose proof (lseg_lookup _ _ _ _ _ _ Hseg Hb) as Hbn.
  unfold Insert.
  rewrite (bind_Ok _ _ _ _ _ (inBounds_eq _ l)).
  rewrite inBounds_true by (unfold in_range; lia). cbn [negb].
  rewrite bool_decide_false by done.
  unfold bind at 1. unfold gets at 1.
  unfold bind at 1. unfold set_size at 1.
  unfold bind at 1. unfold gets at 1.
  cbn [nodes list_first list_last list_size length].
  rewrite wrap_id by (unfold int_min; lia).
  replace (list_size l + Z.of_nat 0) with (list_size l) by lia.
  destruct l as [h f la sz]. cbn [nodes list_first list_last list_size] in *.
  rewrite (bind_Ok _ _ _ _ _
             (walk_prev_head (mkList h f la sz) _ _ None (Z.to_nat index)
                Hseg ltac:(lia))).
  destruct (Z.to_nat index) as [|n] eqn:Hn; [lia|]. simpl in Hb.
  rewrite (ptr_lookup _ _ _ _ Hb).
  rewrite (bind_Ok _ _ _ _ _ (load_Ok b _ (mkList h f la sz) Hbn)).
  cbn [next Insert_loop]. unfold bind at 1. unfold ret at 1.
  unfold bind at 1.
  rewrite (store_next_Ok _ _ _ _ (mkList h f la sz) Hbn).
  cbn [nodes list_first list_last list_size]. unfold ret.
  by rewrite insert_id.
Qed.

Lemma Swap_Inv fuel l old i j vi vj :
  Inv l → Values zero l = Ok (old, l) → list_size l < Z.of_nat fuel →
  old !! i = Some vi → old !! j = Some vj →
  ∃ l', Swap fuel (Z.of_nat i) (Z.of_nat j) l = Ok (None, l') ∧ Inv l' ∧
        Values zero l' = Ok (<[j := vi]> (<[i := vj]> old), l') ∧
        list_size l' = list_size l.
Proof.
  intros HInv Hold Hfuel Hvi Hvj.
  pose proof HInv as (xs & Hrep & Hmax & Hvals)%Inv_Values.
  rewrite Hvals in Hold. injection Hold as <-.
  pose proof (Repr_length _ _ Hrep) as Hsz.
  rewrite list_lookup_fmap in Hvi, Hvj.
  destruct (xs !! i) as [[ai vi']|] eqn:Hxi; [|done]. injection Hvi as ->.
  destruct (xs !! j) as [[aj vj']|] eqn:Hxj; [|done]. injection Hvj as ->.
  apply lookup_lt_Some in Hxi as Hilt. apply lookup_lt_Some in Hxj as Hjlt.
  destruct (decide (i = j)) as [<-|Hij].
  - rewrite Hxi in Hxj. injection Hxj as <- <-. exists l.
    split; [apply Swap_same; unfold in_range; lia|]. split; [done|].
    split; [|done].
    rewrite !(list_insert_id (xs.*2)) by (by rewrite list_lookup_fmap, Hxi).
    done.
  - destruct (Swap_Repr l xs _ _ ai vi aj vj fuel Hrep Hxi Hxj)
      as (l' & Hrun & Hr); [lia..|].
    pose proof (Repr_length _ _ Hr) as Hsz'.
    rewrite !length_insert in Hsz'.
    exists l'. split; [done|]. split; [eapply Repr_Inv; [done|lia]|].
    split; [|lia]. by rewrite (Values_Repr _ _ Hr), !list_fmap_insert.
Qed.

(** X14. [Swap] is its own inverse and symmetric: on a well-formed list
    and for indices in [[0, size)], [Swap(i, j)] twice gives back the
    same contents, and [Swap(j, i)] gives the contents that [Swap(i, j)]
    gives. *)
Theorem Swap_twice fuel l old i j :
  Inv l → Values zero l = Ok (old, l) → list_size l < Z.of_nat fuel →
  in_range l i → in_range l j →
  ∃ l1 l2 l3 vs,
    Swap fuel i j l = Ok (None, l1) ∧ Values zero l1 = Ok (vs, l1) ∧
    Swap fuel i j l1 = Ok (None, l2) ∧ Values zero l2 = Ok (old, l2) ∧
    Swap fuel j i l = Ok (None, l3) ∧ Values zero l3 = Ok (vs, l3).
Proof.
  intros HInv Hold Hfuel [Hi0 Hilt] [Hj0 Hjlt].
  pose proof (Inv_size_length _ _ HInv Hold) as Hsz.
  destruct (lookup_lt_is_Some_2 old (Z.to_nat i) ltac:(lia)) as [vi Hvi].
  destruct (lookup_lt_is_Some_2 old (Z.to_nat j) ltac:(lia)) as [vj Hvj].
  destruct (Swap_Inv fuel l old _ _ vi vj HInv Hold Hfuel Hvi Hvj)
    as (l1 & Hrun1 & HInv1 & Hvals1 & Hsz1).
  destruct (Swap_Inv fuel l old _ _ vj vi HInv Hold Hfuel Hvj Hvi)
    as (l3 & Hrun3 & HInv3 & Hvals3 & Hsz3).
  set (vs := <[Z.to_nat j := vi]> (<[Z.to_nat i := vj]> old)) in *.
  assert (vs !! Z.to_nat j = Some vi) as Hvj1.
  { unfold vs. apply list_lookup_insert_eq. rewrite length_insert. lia. }
  assert (∃ w, vs !! Z.to_nat i = Some w ∧
               <[Z.to_nat j := w]> (<[Z.to_nat i := vi]> vs) = old)
    as (w & Hvi1 & Hback).
  { destruct (decide (Z.to_nat i = Z.to_nat j)) as [Heq|Hneq].
    - exists vi. rewrite Heq. split; [done|].
      rewrite Heq, Hvj in Hvi. injection Hvi as ->.
      unfold vs. rewrite Heq, !list_insert_insert_eq.
      by apply list_insert_id.
    - exists vj. split.
      + unfold vs. rewrite list_lookup_insert_ne by done.
        apply list_lookup_insert_eq. lia.
      + unfold vs. apply list_eq. intros k.
        rewrite !list_lookup_insert, !length_insert.
        destruct (decide (Z.to_nat j = k)) as [Hjk|Hjk],
                 (decide (Z.to_nat i = k)) as [Hik|Hik];
          repeat case_decide; try done; try lia; try congruence;
          intuition (try lia; try congruence). }
  destruct (Swap_Inv fuel l1 vs _ _ w vi HInv1 Hvals1 ltac:(lia) Hvi1 Hvj1)
    as (l2 & Hrun2 & HInv2 & Hvals2 & Hsz2).
  rewrite !Z2Nat.id in Hrun1, Hrun2, Hrun3 by lia.
  exists l1, l2, l3, vs. split; [done|]. split; [done|]. split; [done|].
  split; [by rewrite Hvals2, Hback|]. split; [done|].
  rewrite Hvals3. do 2 f_equal. unfold vs.
  destruct (decide (Z.to_nat i = Z.to_nat j)) as [Heq|Hneq].
  - rewrite Heq in Hvi |- *. rewrite Hvj in Hvi. by injection Hvi as ->.
  - rewrite list_insert_insert. by case_decide.
Qed.

(** [p.value = v] keeps the fields of the list and every [next] link. *)
Lemma store_value_links p v l l' :
  store_value p v l = Ok (tt, l') →
  list_first l' = list_first l ∧ list_last l' = list_last l ∧
  list_size l' = list_size l ∧
  ∀ a, next <$> nodes l' !! a = next <$> nodes l !! a.
Proof.
  unfold store_value. intros Hrun. inv_bind Hrun.
  apply load_inv in Hrun0 as (-> & b & -> & Hb).
  injection Hrun as <-. cbn [nodes list_first list_last list_size].
  do 3 (split; [done|]). intros a.
  destruct (decide (b = a)) as [->|Hne].
  - by rewrite lookup_insert_eq, Hb.
  - by rewrite lookup_insert_ne.
Qed.

(** X15. [Swap] and [Set] never relink: on every list, well-formed or
    not, whenever [Swap(i, j)] or [Set(index, v)] returns, [first],
    [last] and [size] are what they were and every node has the [next]
    link it had; only values are written. *)
Theorem Swap_Set_keep_links fuel l :
  (∀ i j e l',
     Swap fuel i j l = Ok (e, l') →
     list_first l' = list_first l ∧ list_last l' = list_last l ∧
     list_size l' = list_size l ∧
     ∀ a, next <$> nodes l' !! a = next <$> nodes l !! a) ∧
  (∀ index v e l',
     Set_ index v l = Ok (e, l') →
     list_first l' = list_first l ∧ list_last l' = list_last l ∧
     list_size l' = list_size l ∧
     ∀ a, next <$> nodes l' !! a = next <$> nodes l !! a).
Proof.
  split.
  - intros i j e l' Hrun. unfold Swap in Hrun.
    inv_bind Hrun. inv_ret Hrun0. inv_bind Hrun. inv_ret Hrun0.
    destruct (_ || _); [by inv_ret Hrun|].
    case_bool_decide; [by inv_ret Hrun|].
    inv_bind Hrun. inv_ret Hrun0. inv_bind Hrun. destruct x as [n1 n2].
    apply Swap_loop_ro in Hrun0 as ->.
    inv_bind Hrun. apply load_ro in Hrun0 as ->.
    inv_bind Hrun. apply load_ro in Hrun0 as ->.
    inv_bind Hrun. destruct x1. inv_bind Hrun. destruct x1.
    injection Hrun as _ ->.
    apply store_value_links in Hrun0 as (Hf1 & Hl1 & Hs1 & Hn1).
    apply store_value_links in Hrun1 as (Hf2 & Hl2 & Hs2 & Hn2).
    split; [congruence|]. split; [congruence|]. split; [congruence|].
    intros a. by rewrite Hn2, Hn1.
  - intros index v e l' Hrun. unfold Set_ in Hrun.
    inv_bind Hrun. inv_ret Hrun0.
    destruct (_ && _); cbn [negb] in Hrun; [|by inv_ret Hrun].
    inv_bind Hrun. inv_ret Hrun0. inv_bind Hrun.
    apply walk_ro in Hrun0 as ->.
    inv_bind Hrun. destruct x0. injection Hrun as _ ->.
    by apply store_value_links in Hrun0.
Qed.

(** X17. Removing the tail keeps [Add] working: on a well-formed list
    with contents [init ++ [v]], [Remove(size - 1)] returns nil, [Last()]
    then returns the last element of [init] (or [ErrEmptyList] when
    [init] is empty), and a following [Add(values...)] gives the
    contents [init ++ values]. *)
Theorem Remove_last_then_Add values l init v :
  Inv l → Values zero l = Ok (init ++ [v], l) →
  list_size l - 1 + Z.of_nat (length values) ≤ int_max →
  ∃ l1 l2,
    Remove (list_size l - 1) l = Ok (None, l1) ∧
    Last zero l1 = Ok (match last init with
                       | None => (zero, Some ErrEmptyList)
                       | Some w => (w, None)
                       end, l1) ∧
    Add values l1 = Ok (tt, l2) ∧ Inv l2 ∧
    Values zero l2 = Ok (init ++ values, l2).
Proof.
  intros HInv Hold Hgrow.
  pose proof (Inv_size_length _ _ HInv Hold) as Hsz.
  rewrite length_app in Hsz. simpl in Hsz.
  assert (in_range l (list_size l - 1)) as Hin by (unfold in_range; lia).
  destruct (Remove_Inv l _ _ HInv Hold Hin) as (l1 & Hrun1 & _).
  destruct (Remove_Inv_size _ _ _ _ HInv Hold Hin Hrun1)
    as (HInv1 & Hvals1 & Hsz1).
  replace (Z.to_nat (list_size l - 1)) with (length init) in Hvals1 by lia.
  rewrite delete_middle, app_nil_r in Hvals1.
  destruct (Add_Inv values l1 init HInv1 Hvals1)
    as (l2 & Hrun2 & HInv2 & Hvals2 & _); [lia|].
  exists l1, l2. split; [done|]. split; [by apply Last_Inv|]. done.
Qed.


End singly_correct.

(** ** The model on lists of [int] *)

Local Open Scope M_scope.

Lemma New_list_123 : New [1; 2; 3] = Ok (tt, list_123).
Proof. vm_compute. reflexivity. Qed.

Lemma New_list_1 : New [1] = Ok (tt, list_1).
Proof. vm_compute. reflexivity. Qed.

Lemma New_list_empty : New [] = Ok (tt, list_empty).
Proof. vm_compute. reflexivity. Qed.

(** The cases of the repository's test table ([TestList]), each run on
    [New[int]()]. *)
Lemma repository_tests :
  (Add [1];; Values 0) list_empty = Values 0 list_1 ∧
  (Append [1; 2; 3];; Values 0) list_empty = Values 0 list_123 ∧
  (Prepend [1];; Values 0) list_empty = Values 0 list_1 ∧
  Get 0 0 list_empty = Ok ((0, Some ErrIndexOutOfBounds), list_empty) ∧
  (Add [1; 2; 3];; Get 0 1) list_empty = Ok ((2, None), list_123) ∧
  Remove 0 list_empty = Ok (Some ErrEmptyList, list_empty) ∧
  (∃ l', (Add [1; 2; 3];; Remove 0) list_empty = Ok (None, l') ∧
         Values 0 l' = Ok ([2; 3], l')) ∧
  (Add [1; 2; 3];; Contains 4 [1; 2]) list_empty = Ok (true, list_123).
Proof.
  repeat split; try (vm_compute; reflexivity).
  eexists. split; vm_compute; reflexivity.
Qed.

(** C1. [Contains] with a duplicated argument: on the list [[1]],
    [Contains(1, 1)] returns false although the only distinct value
    requested, [1], is in the list and [Contains(1)] returns true. *)
Theorem Contains_duplicate_arguments :
  Values 0 list_1 = Ok ([1], list_1) ∧
  Contains 2 [1; 1] list_1 = Ok (false, list_1) ∧
  Contains 2 [1] list_1 = Ok (true, list_1).
Proof. repeat split; vm_compute; reflexivity. Qed.

(** C6. [Remove(index)] on a well-formed, non-empty list with [index]
    in [[0, size)] returns nil; the contents are the old ones with the
    element at [index] deleted, the others in their order; the size is
    one less; and the list is well-formed again, so [first] and [last]
    are right also when the head or the tail was removed.  On
    [[1, 2, 3]], [Remove(0)] gives [[2, 3]] with size 2, and then
    [IndexOf(2)] returns 0 with a nil error. *)
Theorem Remove_spec :
  (∀ (T : Type) `(Countable T) (zero : T) (l : List T) (old : list T)
     (index : Z),
     Inv l → Values zero l = Ok (old, l) → in_range l index →
     ∃ l', Remove index l = Ok (None, l') ∧ Inv l' ∧ structural l' ∧
           Values zero l' = Ok (delete (Z.to_nat index) old, l') ∧
           Size l' = Ok (list_size l - 1, l')) ∧
  (New [1; 2; 3] = Ok (tt, list_123) ∧
   ∃ l', Remove 0 list_123 = Ok (None, l') ∧
         Values 0 l' = Ok ([2; 3], l') ∧
         Size l' = Ok (2, l') ∧
         IndexOf 3 2 l' = Ok ((0, None), l')).
Proof.
  split.
  - intros T ? ? zero l old index. apply Remove_Inv.
  - split; [apply New_list_123|].
    eexists. split; [vm_compute; reflexivity|].
    repeat split; vm_compute; reflexivity.
Qed.

(** ** The theorems at sample lists *)

Lemma invariant_preserved_witness :
  (Inv list_123 ↔ 0 ≤ list_size list_123 ≤ int_max ∧ structural list_123) ∧
  (∃ l, New [1; 2; 3] = Ok (tt, l) ∧ Inv l) ∧
  (∃ r l', exec 0 4 (CallInsert 1 [7; 8]) list_123 = Ok (r, l') ∧ Inv l') ∧
  (∃ l rs l' vs,
     New [1; 2; 3] = Ok (tt, l) ∧
     run 0 8 [CallAdd [4; 5]; CallRemove 0; CallInsert 1 [9]; CallSwap 0 2;
              CallGet 7; CallPrepend [6]; CallClear] l
     = Ok (rs, l') ∧
     Inv l' ∧ Values 0 l' = Ok (vs, l') ∧
     Size l' = Ok (Z.of_nat (length vs), l')).
Proof.
  split; [|split; [|split]].
  - apply (proj1 (invariant_preserved 0)).
  - apply (proj1 (proj2 (invariant_preserved 0))).
    unfold int_max. simpl. lia.
  - apply (proj1 (proj2 (proj2 (invariant_preserved 0)))).
    + vm_compute. reflexivity.
    + simpl. lia.
    + unfold int_max. simpl. lia.
  - apply (proj2 (proj2 (proj2 (invariant_preserved 0)))).
    + simpl. lia.
    + unfold int_max. simpl. lia.
Defined.

Lemma error_kinds_witness :
  (Get 0 5 list_123 = Ok ((0, Some ErrIndexOutOfBounds), list_123) ∧
   Set_ 5 9 list_123 = Ok (Some ErrIndexOutOfBounds, list_123) ∧
   Swap 4 5 0 list_123 = Ok (Some ErrIndexOutOfBounds, list_123) ∧
   Swap 4 0 5 list_123 = Ok (Some ErrIndexOutOfBounds, list_123) ∧
   (list_size list_123 ≠ 0 →
    Remove 5 list_123 = Ok (Some ErrIndexOutOfBounds, list_123))) ∧
  (First 0 list_empty = Ok ((0, Some ErrEmptyList), list_empty) ∧
   Last 0 list_empty = Ok ((0, Some ErrEmptyList), list_empty) ∧
   (∀ v, IndexOf 4 v list_empty = Ok ((-1, Some ErrEmptyList), list_empty)) ∧
   (∀ index, Remove index list_empty = Ok (Some ErrEmptyList, list_empty)) ∧
   Get 0 0 list_empty = Ok ((0, Some ErrIndexOutOfBounds), list_empty)).
Proof.
  split.
  - apply (proj1 (error_kinds 0 4 list_123) 5 9 0).
    unfold in_range. simpl. lia.
  - apply (proj2 (error_kinds 0 4 list_empty)). reflexivity.
Defined.

Lemma Insert_spec_witness :
  (∃ l', Insert 1 [7; 8] list_123 = Ok (None, l') ∧ Inv l' ∧
         Values 0 l' = Ok ([1; 7; 8; 2; 3], l') ∧
         list_size l' = 5) ∧
  Insert 4 [7; 8] list_123 = Ok (Some ErrIndexOutOfBounds, list_123).
Proof.
  split.
  - refine (proj1 (Insert_spec 0 [7; 8] list_123 [1; 2; 3] _ _ _) 1 _).
    + vm_compute. reflexivity.
    + vm_compute. reflexivity.
    + unfold int_max. simpl. lia.
    + simpl. lia.
  - refine (proj1 (proj2 (Insert_spec 0 [7; 8] list_123 [1; 2; 3] _ _ _))
              4 _).
    + vm_compute. reflexivity.
    + vm_compute. reflexivity.
    + unfold int_max. simpl. lia.
    + simpl. lia.
Defined.

Lemma Prepend_spec_witness :
  ∃ l', Prepend [7; 8] list_empty = Ok (tt, l') ∧ Inv l' ∧
        Values 0 l' = Ok ([7; 8], l') ∧
        list_size l' = 2 ∧
        (∀ v, last [7; 8] = Some v →
              list_last l' ≠ None ∧ Last 0 l' = Ok ((v, None), l')).
Proof.
  refine (Prepend_spec 0 [7; 8] list_empty [] _ _ _).
  - vm_compute. reflexivity.
  - vm_compute. reflexivity.
  - unfold int_max. simpl. lia.
Defined.

Lemma Remove_spec_witness :
  ∃ l', Remove 1 list_123 = Ok (None, l') ∧ Inv l' ∧ structural l' ∧
        Values 0 l' = Ok ([1; 3], l') ∧
        Size l' = Ok (2, l').
Proof.
  refine (proj1 Remove_spec Z _ _ 0 list_123 [1; 2; 3] 1 _ _ _).
  - vm_compute. reflexivity.
  - vm_compute. reflexivity.
  - unfold in_range. simpl. lia.
Defined.

Lemma Swap_spec_witness :
  ∃ l' vi vj,
    [1; 2; 3] !! 0%nat = Some vi ∧ [1; 2; 3] !! 2%nat = Some vj ∧
    Swap 4 0 2 list_123 = Ok (None, l') ∧ Inv l' ∧
    Values 0 l' = Ok (<[2%nat := vi]> (<[0%nat := vj]> [1; 2; 3]), l') ∧
    list_size l' = 3.
Proof.
  refine (proj1 (Swap_spec 0 4 list_123 [1; 2; 3] 0 2 _ _ _) _ _).
  - vm_compute. reflexivity.
  - vm_compute. reflexivity.
  - simpl. lia.
  - unfold in_range. simpl. lia.
  - unfold in_range. simpl. lia.
Defined.

Lemma IndexOf_spec_witness :
  ∃ z e,
    IndexOf 4 2 list_123 = Ok ((z, e), list_123) ∧
    (∀ k, [1; 2; 3] !! k = Some 2 →
          (∀ j, (j < k)%nat → [1; 2; 3] !! j ≠ Some 2) →
          z = Z.of_nat k ∧ e = None) ∧
    (list_size list_123 = 0 → z = -1 ∧ e = Some ErrEmptyList) ∧
    (e = Some ErrElementNotFound ↔
     list_size list_123 ≠ 0 ∧ 2 ∉ [1; 2; 3]) ∧
    (e = Some ErrElementNotFound → z = -1).
Proof.
  refine (IndexOf_spec 0 4 list_123 [1; 2; 3] 2 _ _ _).
  - vm_compute. reflexivity.
  - vm_compute. reflexivity.
  - simpl. lia.
Defined.

Lemma failure_leaves_list_unchanged_witness :
  list_123 = list_123 ∧ Size list_123 = Size list_123 ∧
  Values 0 list_123 = Values 0 list_123.
Proof.
  refine (failure_leaves_list_unchanged 0 4 (CallRemove 7) list_123
            (RError (Some ErrIndexOutOfBounds)) list_123 _ _).
  - vm_compute. reflexivity.
  - simpl. discriminate.
Defined.

Lemma queries_leave_list_unchanged_witness :
  (list_123 = list_123 ∧ Size list_123 = Size list_123 ∧
   Values 0 list_123 = Values 0 list_123) ∧
  (∃ r, exec 0 4 (CallContains [1; 3]) list_123 = Ok (r, list_123)).
Proof.
  split.
  - refine (proj1 (queries_leave_list_unchanged 0 4 (CallContains [1; 3])
                     list_123 _) (RBool true) list_123 _).
    + reflexivity.
    + vm_compute. reflexivity.
  - refine (proj2 (queries_leave_list_unchanged 0 4 (CallContains [1; 3])
                     list_123 _) _ _).
    + reflexivity.
    + vm_compute. reflexivity.
    + simpl. lia.
Defined.

(** ** The test helper *)

Lemma sliceEqual_loop_spec (b : list Z) :
  ∀ (a : list Z) (i : nat),
  (i + length a = length b)%nat →
  sliceEqual_loop a i b = Ok (bool_decide (a = drop i b)).
Proof.
  induction a as [|x a IH]; intros i Hlen; simpl in *.
  - rewrite drop_ge by lia. by rewrite bool_decide_true.
  - destruct (lookup_lt_is_Some_2 b i ltac:(lia)) as [y Hy].
    rewrite Hy, (drop_S _ _ _ Hy). case_bool_decide as Hxy.
    + rewrite bool_decide_false; [done|]. by intros [= ? _].
    + subst y. rewrite IH by lia.
      f_equal. apply bool_decide_ext. split; [by intros ->|by intros [= ->]].
Qed.

(** X18. [sliceEqual] decides equality of slices: for all [a] and [b] it
    returns, without panic, true when [a] and [b] have the same elements
    in the same order and false otherwise. *)
Theorem sliceEqual_spec (a b : list Z) :
  sliceEqual a b = Ok (bool_decide (a = b)).
Proof.
  unfold sliceEqual. case_bool_decide as Hlen.
  - rewrite bool_decide_false; [done|]. by intros ->.
  - by rewrite sliceEqual_loop_spec, drop_0 by (simpl; lia).
Qed.

(** ** The further properties at sample lists *)

Lemma New_round_trip_witness :
  ∃ l, New [1; 2; 3] = Ok (tt, l) ∧ Inv l ∧
       Values 0 l = Ok ([1; 2; 3], l) ∧
       Size l = Ok (3, l) ∧
       IsEmpty l = Ok (false, l) ∧
       ∀ i v, [1; 2; 3] !! i = Some v →
              Get 0 (Z.of_nat i) l = Ok ((v, None), l).
Proof.
  refine (New_round_trip 0 [1; 2; 3] _). unfold int_max. simpl. lia.
Defined.

Lemma Add_appends_witness :
  ∃ l', Add [4; 5] list_123 = Ok (tt, l') ∧
        Append [4; 5] list_123 = Ok (tt, l') ∧
        Inv l' ∧ Values 0 l' = Ok ([1; 2; 3; 4; 5], l') ∧
        Size l' = Ok (5, l') ∧
        (∀ v, last [4; 5] = Some v → Last 0 l' = Ok ((v, None), l')).
Proof.
  refine (Add_appends 0 [4; 5] list_123 [1; 2; 3] _ _ _).
  - vm_compute. reflexivity.
  - vm_compute. reflexivity.
  - unfold int_max. simpl. lia.
Defined.

Lemma Get_agrees_with_Values_witness :
  Get 0 1 list_123 = Ok ((2, None), list_123) ↔
  0 ≤ 1 ∧ [1; 2; 3] !! Z.to_nat 1 = Some 2.
Proof.
  refine (Get_agrees_with_Values 0 list_123 [1; 2; 3] 1 2 _ _).
  - vm_compute. reflexivity.
  - vm_compute. reflexivity.
Defined.

Lemma Set_then_Get_witness :
  ∃ l', Set_ 1 9 list_123 = Ok (None, l') ∧ Inv l' ∧
        Values 0 l' = Ok ([1; 9; 3], l') ∧
        Size l' = Ok (3, l') ∧
        Get 0 1 l' = Ok ((9, None), l') ∧
        (∀ j w, j ≠ Z.to_nat 1 → [1; 2; 3] !! j = Some w →
                Get 0 (Z.of_nat j) l' = Ok ((w, None), l')).
Proof.
  refine (Set_then_Get 0 list_123 [1; 2; 3] 1 9 _ _ _).
  - vm_compute. reflexivity.
  - vm_compute. reflexivity.
  - unfold in_range. simpl. lia.
Defined.

Lemma First_Last_agree_with_Values_witness :
  First 0 list_123 = Ok ((1, None), list_123) ∧
  Last 0 list_123 = Ok ((3, None), list_123) ∧
  IsEmpty list_123 = Ok (false, list_123).
Proof.
  refine (First_Last_agree_with_Values 0 list_123 [1; 2; 3] _ _).
  - vm_compute. reflexivity.
  - vm_compute. reflexivity.
Defined.

Lemma Clear_then_Add_witness :
  ∃ l', (Clear;; Add [7; 8]) list_123 = Ok (tt, l') ∧ Inv l' ∧
        Values 0 l' = Ok ([7; 8], l') ∧
        Size l' = Ok (2, l') ∧
        IsEmpty l' = Ok (false, l').
Proof.
  refine (Clear_then_Add 0 [7; 8] list_123 _). unfold int_max. simpl. lia.
Defined.

Lemma Contains_exact_witness :
  ∃ b, Contains 4 [3; 1] list_123 = Ok (b, list_123) ∧
       (b = true ↔
        [3; 1] = [] ∨
        (Z.of_nat (length [3; 1]) ≤ list_size list_123 ∧
         ∀ v, v ∈ [3; 1] → v ∈ [1; 2; 3])).
Proof.
  refine (Contains_exact 0 4 [3; 1] list_123 [1; 2; 3] _ _ _).
  - vm_compute. reflexivity.
  - vm_compute. reflexivity.
  - simpl. lia.
Defined.


Lemma IndexOf_Get_Contains_witness :
  Get 0 1 list_123 = Ok ((2, None), list_123) ∧
  (Contains 4 [2] list_123 = Ok (true, list_123) ↔
   ∃ z, IndexOf 4 2 list_123 = Ok ((z, None), list_123)).
Proof.
  split.
  - refine (proj1 (IndexOf_Get_Contains 0 4 list_123 [1; 2; 3] 2 _ _ _)
              1 list_123 _).
    + vm_compute. reflexivity.
    + vm_compute. reflexivity.
    + simpl. lia.
    + vm_compute. reflexivity.
  - refine (proj2 (IndexOf_Get_Contains 0 4 list_123 [1; 2; 3] 2 _ _ _)).
    + vm_compute. reflexivity.
    + vm_compute. reflexivity.
    + simpl. lia.
Defined.

Lemma Remove_then_Insert_witness :
  ∃ l1 l2, Remove 1 list_123 = Ok (None, l1) ∧
           Insert 1 [2] l1 = Ok (None, l2) ∧
           Inv l2 ∧ Values 0 l2 = Ok ([1; 2; 3], l2) ∧
           Size l2 = Ok (3, l2).
Proof.
  refine (Remove_then_Insert 0 list_123 [1; 2; 3] 1 2 _ _ _ _).
  - vm_compute. reflexivity.
  - vm_compute. reflexivity.
  - lia.
  - reflexivity.
Defined.

Lemma Insert_then_Remove_witness :
  ∃ l1 l2, Insert 3 [9] list_123 = Ok (None, l1) ∧
           Remove 3 l1 = Ok (None, l2) ∧
           Inv l2 ∧ Values 0 l2 = Ok ([1; 2; 3], l2) ∧
           Size l2 = Ok (3, l2).
Proof.
  refine (Insert_then_Remove 0 list_123 [1; 2; 3] 3 9 _ _ _ _).
  - vm_compute. reflexivity.
  - vm_compute. reflexivity.
  - simpl. lia.
  - unfold int_max. simpl. lia.
Defined.

Lemma Swap_twice_witness :
  ∃ l1 l2 l3 vs,
    Swap 4 0 2 list_123 = Ok (None, l1) ∧ Values 0 l1 = Ok (vs, l1) ∧
    Swap 4 0 2 l1 = Ok (None, l2) ∧ Values 0 l2 = Ok ([1; 2; 3], l2) ∧
    Swap 4 2 0 list_123 = Ok (None, l3) ∧ Values 0 l3 = Ok (vs, l3).
Proof.
  refine (Swap_twice 0 4 list_123 [1; 2; 3] 0 2 _ _ _ _ _).
  - vm_compute. reflexivity.
  - vm_compute. reflexivity.
  - simpl. lia.
  - unfold in_range. simpl. lia.
  - unfold in_range. simpl. lia.
Defined.

Lemma Swap_Set_keep_links_witness :
  (∃ l', Swap 4 0 2 list_123 = Ok (None, l') ∧
         list_first l' = list_first list_123 ∧
         list_last l' = list_last list_123 ∧
         list_size l' = list_size list_123 ∧
         ∀ a, next <$> nodes l' !! a = next <$> nodes list_123 !! a) ∧
  (∃ l', Set_ 1 9 list_123 = Ok (None, l') ∧
         list_first l' = list_first list_123 ∧
         list_last l' = list_last list_123 ∧
         list_size l' = list_size list_123 ∧
         ∀ a, next <$> nodes l' !! a = next <$> nodes list_123 !! a).
Proof.
  split.
  - eexists. split; [vm_compute; reflexivity|].
    refine (proj1 (Swap_Set_keep_links 4 list_123) 0 2 None _ _).
    vm_compute. reflexivity.
  - eexists. split; [vm_compute; reflexivity|].
    refine (proj2 (Swap_Set_keep_links 4 list_123) 1 9 None _ _).
    vm_compute. reflexivity.
Defined.

Lemma Insert_no_values_witness :
  Insert 2 [] list_123 = Ok (None, list_123).
Proof.
  refine (Insert_no_values list_123 2 _ _).
  - vm_compute. reflexivity.
  - simpl. lia.
Defined.

Lemma Remove_last_then_Add_witness :
  ∃ l1 l2,
    Remove (list_size list_123 - 1) list_123 = Ok (None, l1) ∧
    Last 0 l1 = Ok ((2, None), l1) ∧
    Add [7] l1 = Ok (tt, l2) ∧ Inv l2 ∧
    Values 0 l2 = Ok ([1; 2; 7], l2).
Proof.
  refine (Remove_last_then_Add 0 [7] list_123 [1; 2] 3 _ _ _).
  - vm_compute. reflexivity.
  - vm_compute. reflexivity.
  - unfold int_max. simpl. lia.
Defined.

